(** * Session orchestration and terminal automation: a model of the
      orchestrator's session manager, relay loop and expect engine.

    The development follows the Python sources:
    - [orchestrator/terminal/pexpect_handler.py]  (module [Pexpect])
    - [orchestrator/core/session_manager.py]      (modules [Sessions],
      [Relay] and [Async])
    - [orchestrator/terminal/pty_handler.py]      (the PTY handler state
      used by both)
    - [orchestrator/api/websocket.py]             (module [WebSocket])
    - [orchestrator/api/routes/sessions.py] and
      [orchestrator/api/routes/automation.py]     (module [Routes])
    - [orchestrator/api/app.py]                   (module [Endpoint]).

    Python objects that are shared by reference (sessions) live in an
    explicit heap; dictionaries are finite maps; wall-clock time, the
    bytes arriving on a channel, fresh uuids and the container runtime are
    inputs supplied by the environment. *)

From Stdlib Require Import ZArith String Ascii.
From stdpp Require Import gmap strings list fin_maps.

Local Open Scope Z_scope.

(** ** Python values shared by all modules *)

Module Py.

(** The exceptions the modelled code raises.  [TimeoutError] carries the
    timeout of the message [Pattern not found within {timeout} seconds],
    [RuntimeError] the maximum of [Maximum sessions ({max}) reached], and
    [DockerError] stands for whatever the container runtime raises. *)
Inductive exn : Type :=
| TimeoutError (timeout : Z)
| RuntimeError (max_sessions : Z)
| DockerError (msg : string).

(** A call either returns a value or raises. *)
Inductive result (A : Type) : Type :=
| Returned (a : A)
| Raised (e : exn).
Arguments Returned {A} a.
Arguments Raised {A} e.

(** [s[n:]]: slicing clamps at the end of the string. *)
Fixpoint str_drop (n : nat) (s : string) : string :=
  match n, s with
  | O, _ => s
  | S n', String _ s' => str_drop n' s'
  | S _, EmptyString => EmptyString
  end.

(** [''.join(l)] *)
Fixpoint str_concat (l : list string) : string :=
  match l with
  | [] => EmptyString
  | s :: l' => s +:+ str_concat l'
  end.

(** [hay.find(needle)]: offset of the leftmost occurrence. *)
Fixpoint find (needle hay : string) : option nat :=
  if String.prefix needle hay then Some O
  else match hay with
       | EmptyString => None
       | String _ hay' => S <$> find needle hay'
       end.

Definition newline : string := String (ascii_of_nat 10) EmptyString.

End Py.

Import Py.

(** ** The [re] objects the expect engine uses *)

Module re.

(** A match object, reduced to its span. *)
Record Match : Type := { m_start : nat; m_end : nat }.

(** A compiled pattern is known through [Pattern.search] only: the
    leftmost match in the argument, if there is one. *)
Record Pattern : Type := { search : string -> option Match }.

(** [re.compile(re.escape(p))]: the pattern that matches [p] literally. *)
Definition compile_escape (p : string) : Pattern :=
  {| search := fun buf =>
       match find p buf with
       | Some i => Some {| m_start := i; m_end := i + String.length p |}
       | None => None
       end |}.

End re.

(** ** pexpect_handler.py *)

Module Pexpect.
Import re.

(** Times are in microseconds. *)
Definition seconds (n : Z) : Z := n * 1000000.

(** What [expect] sees of the outside: [time.time()] answers with the
    next reading of [clock]; [time.sleep] is recorded in [slept].

    The handler reaches its channel through [pty_handler.read()] and
    [pty_handler.write(...)] only, and it calls [read] as a plain function
    whose result it appends to a [str].  The channel is modelled to that
    interface, as the handler of the test fixture implements it: a call of
    [read] answers with the next chunk that arrived, or with the empty
    string when nothing is pending, and [write] appends to [written].  (The
    [read] of [PTYHandler] is declared [async] and is awaited by the relay
    loop; module [Pty] models it for that use.) *)
Record World : Type := {
  clock : nat -> Z;
  ticks : nat;
  incoming : list string;
  written : list string;
  slept : nat
}.

Definition time_time (w : World) : Z * World :=
  (clock w (ticks w),
   {| clock := clock w; ticks := S (ticks w); incoming := incoming w;
      written := written w; slept := slept w |}).

Definition pty_read (w : World) : string * World :=
  match incoming w with
  | [] => (EmptyString, w)
  | chunk :: rest =>
      (chunk,
       {| clock := clock w; ticks := ticks w; incoming := rest;
          written := written w; slept := slept w |})
  end.

Definition pty_write (data : string) (w : World) : World :=
  {| clock := clock w; ticks := ticks w; incoming := incoming w;
     written := written w ++ [data]; slept := slept w |}.

Definition time_sleep (w : World) : World :=
  {| clock := clock w; ticks := ticks w; incoming := incoming w;
     written := written w; slept := S (slept w) |}.

Record PexpectHandler : Type := {
  _buffer : string;
  _patterns : list Pattern
}.

Definition set_buffer (b : string) (h : PexpectHandler) : PexpectHandler :=
  {| _buffer := b; _patterns := _patterns h |}.

(** [PexpectHandler.send] and [PexpectHandler.sendline] *)
Definition send (data : string) (w : World) : World := pty_write data w.

Definition sendline (line : string) (w : World) : World :=
  send (line +:+ newline) w.

(** The argument of [expect]: one pattern or a list of them, each a
    [str] or a compiled pattern. *)
Inductive pattern_item : Type :=
| PStr (s : string)
| PRe (r : Pattern).

Inductive pattern_arg : Type :=
| One (p : pattern_item)
| Many (ps : list pattern_item).

(** Lines 59-71: normalise to a list, compile the strings. *)
Definition compile_item (p : pattern_item) : Pattern :=
  match p with
  | PStr s => compile_escape s
  | PRe r => r
  end.

Definition compile_patterns (pattern : pattern_arg) : list Pattern :=
  let patterns := match pattern with One p => [p] | Many ps => ps end in
  map compile_item patterns.

(** Lines 84-89: the [for i, pattern in enumerate(compiled_patterns)]
    loop, counting from [i]. *)
Fixpoint check_patterns (i : nat) (compiled : list Pattern) (buf : string)
  : option (nat * Match) :=
  match compiled with
  | [] => None
  | p :: rest =>
      match search p buf with
      | Some m => Some (i, m)
      | None => check_patterns (S i) rest buf
      end
  end.

(** Lines 79-81: read, and append what was read if it is not empty. *)
Definition poll (w : World) (h : PexpectHandler) : World * PexpectHandler :=
  let '(new_data, w') := pty_read w in
  (w', if bool_decide (new_data = EmptyString) then h
       else set_buffer (_buffer h +:+ new_data) h).

(** Lines 77-94: the polling loop.  [fuel] bounds the number of
    condition checks; [None] means the bound was reached. *)
Fixpoint expect_loop (fuel : nat) (compiled : list Pattern)
    (start_time timeout : Z) (w : World) (h : PexpectHandler)
  : option (result nat * World * PexpectHandler) :=
  match fuel with
  | O => None
  | S fuel' =>
      let '(now, w1) := time_time w in
      if bool_decide (now - start_time < timeout) then
        let '(w2, h1) := poll w1 h in
        match check_patterns 0 compiled (_buffer h1) with
        | Some (i, m) =>
            Some (Returned i, w2, set_buffer (str_drop (m_end m) (_buffer h1)) h1)
        | None => expect_loop fuel' compiled start_time timeout (time_sleep w2) h1
        end
      else Some (Raised (TimeoutError timeout), w1, h)
  end.

Definition expect (fuel : nat) (pattern : pattern_arg) (timeout : Z)
    (w : World) (h : PexpectHandler)
  : option (result nat * World * PexpectHandler) :=
  let compiled_patterns := compile_patterns pattern in
  let '(start_time, w0) := time_time w in
  expect_loop fuel compiled_patterns start_time timeout w0 h.

(** Lines 96-112 *)
Definition expect_exact (fuel : nat) (pattern_list : list string)
    (timeout : Z) (w : World) (h : PexpectHandler) :=
  expect fuel (Many (map (fun p => PRe (compile_escape p)) pattern_list))
    timeout w h.

(** Lines 114-141; [expect(prompt)] runs with the default timeout of 30
    seconds. *)
Definition send_command (fuel : nat) (command : string)
    (expect_prompt : bool) (prompt : string)
    (w : World) (h : PexpectHandler)
  : option (result string * World * PexpectHandler) :=
  let h1 := set_buffer EmptyString h in
  let w1 := sendline command w in
  if expect_prompt then
    match expect fuel (One (PStr prompt)) (seconds 30) w1 h1 with
    | None => None
    | Some (Raised e, w2, h2) => Some (Raised e, w2, h2)
    | Some (Returned _, w2, h2) => Some (Returned (_buffer h2), w2, h2)
    end
  else Some (Returned (_buffer h1), w1, h1).

(** The buffer at the [k]-th poll of a call that started in world [w]
    with handler [h]: the content at the call, followed by what the
    first [k] reads returned. *)
Definition accumulated (k : nat) (w : World) (h : PexpectHandler) : string :=
  _buffer h +:+ str_concat (take k (incoming w)).

(** Lines 147-151 *)
Definition close (h : PexpectHandler) : PexpectHandler :=
  {| _buffer := EmptyString; _patterns := [] |}.

End Pexpect.

(** ** pty_handler.py *)

Module Pty.

(** The exec socket: what [recv] will answer on the next calls, what was
    passed to [send], and whether [close] ran. *)
Record Socket : Type := {
  pending : list string;
  sent : list string;
  closed : bool
}.

(** The container runtime as [PTYHandler] uses it: [containers.get]
    (raising when it answers [Some e]) and [exec_run]. *)
Record Docker : Type := {
  containers_get : string -> option exn;
  exec_run : string -> string -> result Socket
}.

(** A handler once [connect] has returned; these are the only handlers
    a [Session] is built with. *)
Record PTYHandler : Type := {
  container_id : string;
  _connected : bool;
  _socket : Socket
}.

(** Lines 31-75: [connect], with [_connect_sync]; [command or
    "/bin/bash"] also replaces the empty command.  An exception of
    [exec_run] is logged and raised again. *)
Definition exec_command (command : option string) : string :=
  match command with
  | Some c => if bool_decide (c = EmptyString) then "/bin/bash"%string else c
  | None => "/bin/bash"%string
  end.

Definition connect (d : Docker) (cid : string) (command : option string)
  : result PTYHandler :=
  match exec_run d cid (exec_command command) with
  | Raised e => Raised e
  | Returned sock =>
      Returned {| container_id := cid; _connected := true; _socket := sock |}
  end.

(** Lines 77-103: [read] *)
Definition read (p : PTYHandler) : string * PTYHandler :=
  if _connected p then
    match pending (_socket p) with
    | [] => (EmptyString, p)
    | data :: rest =>
        (data,
         {| container_id := container_id p; _connected := _connected p;
            _socket := {| pending := rest; sent := sent (_socket p);
                          closed := closed (_socket p) |} |})
    end
  else (EmptyString, p).

(** Lines 105-117: [write] *)
Definition write (data : string) (p : PTYHandler) : PTYHandler :=
  if _connected p then
    {| container_id := container_id p; _connected := _connected p;
       _socket := {| pending := pending (_socket p);
                     sent := sent (_socket p) ++ [data];
                     closed := closed (_socket p) |} |}
  else p.

(** Lines 142-150: [close] *)
Definition close (p : PTYHandler) : PTYHandler :=
  {| container_id := container_id p; _connected := false;
     _socket := {| pending := pending (_socket p); sent := sent (_socket p);
                   closed := true |} |}.

End Pty.

(** ** session_manager.py: [Session] and [SessionManager] *)

Module Sessions.

(** Output callbacks are compared by identity; a callback is its
    identity here, and what it does when called is given separately
    (module [Relay]). *)
Definition callback : Type := nat.

Record Session : Type := {
  session_id : string;
  container_id : string;
  pty_handler : Pty.PTYHandler;
  pexpect_handler : option Pexpect.PexpectHandler;
  created_at : Z;
  last_activity : Z;
  active : bool;
  _output_callbacks : list callback
}.

(** [l.remove(x)]: drops the first occurrence. *)
Fixpoint list_remove (c : callback) (l : list callback) : list callback :=
  match l with
  | [] => []
  | x :: l' => if bool_decide (x = c) then l' else x :: list_remove c l'
  end.

Definition set_callbacks (l : list callback) (s : Session) : Session :=
  {| session_id := session_id s; container_id := container_id s;
     pty_handler := pty_handler s; pexpect_handler := pexpect_handler s;
     created_at := created_at s; last_activity := last_activity s;
     active := active s; _output_callbacks := l |}.

Definition set_pty (p : Pty.PTYHandler) (s : Session) : Session :=
  {| session_id := session_id s; container_id := container_id s;
     pty_handler := p; pexpect_handler := pexpect_handler s;
     created_at := created_at s; last_activity := last_activity s;
     active := active s; _output_callbacks := _output_callbacks s |}.

(** Lines 43-58 *)
Definition add_output_callback (c : callback) (s : Session) : Session :=
  set_callbacks (_output_callbacks s ++ [c]) s.

Definition remove_output_callback (c : callback) (s : Session) : Session :=
  if bool_decide (c ∈ _output_callbacks s)
  then set_callbacks (list_remove c (_output_callbacks s)) s
  else s.

(** Lines 60-70: [send_input] at time [utcnow]; with or without a
    pexpect handler the data ends in [pty_handler.write]. *)
Definition send_input (utcnow : Z) (data : string) (s : Session) : Session :=
  {| session_id := session_id s; container_id := container_id s;
     pty_handler := Pty.write data (pty_handler s);
     pexpect_handler := pexpect_handler s;
     created_at := created_at s; last_activity := utcnow;
     active := active s; _output_callbacks := _output_callbacks s |}.

(** Lines 81-86: [Session.close] *)
Definition close (s : Session) : Session :=
  {| session_id := session_id s; container_id := container_id s;
     pty_handler := Pty.close (pty_handler s);
     pexpect_handler := Pexpect.close <$> pexpect_handler s;
     created_at := created_at s; last_activity := last_activity s;
     active := false; _output_callbacks := _output_callbacks s |}.

(** A closed session object: inactive, its channel released. *)
Definition closed_object (s : Session) : Prop :=
  active s = false /\
  Pty._connected (pty_handler s) = false /\
  Pty.closed (Pty._socket (pty_handler s)) = true.

(** Session objects are shared between the manager's dictionary and the
    tasks that hold them: the dictionary maps an id to a reference, and
    [heap] holds the objects. *)
Definition ref : Type := nat.

Record SessionManager : Type := {
  max_sessions : Z;
  timeout_seconds : Z;
  sessions : gmap string ref
}.

Record State : Type := {
  heap : gmap ref Session;
  manager : SessionManager
}.

Definition set_sessions (m : gmap string ref) (mg : SessionManager)
  : SessionManager :=
  {| max_sessions := max_sessions mg; timeout_seconds := timeout_seconds mg;
     sessions := m |}.

(** [SessionManager(max_sessions, timeout_seconds)] *)
Definition init (max timeout : Z) : State :=
  {| heap := ∅;
     manager := {| max_sessions := max; timeout_seconds := timeout;
                   sessions := ∅ |} |}.

(** [len(self.sessions)] *)
Definition len_sessions (st : State) : Z :=
  Z.of_nat (size (sessions (manager st))).

(** What one call of [create_session] draws from outside: the uuid, the
    container runtime, and the two readings of [datetime.utcnow()] in
    [Session.__init__] (microseconds). *)
Record CreateEnv : Type := {
  uuid4 : string;
  docker : Pty.Docker;
  utcnow_created : Z;
  utcnow_activity : Z
}.

(** A [create_session] call suspended at [await pty_handler.connect]. *)
Record PendingCreate : Type := {
  pc_env : CreateEnv;
  pc_container_id : string;
  pc_command : option string;
  pc_use_pexpect : bool
}.

(** Lines 123-129: the capacity check, the uuid and the [PTYHandler]
    constructor, up to the [await]. *)
Definition create_session_begin (env : CreateEnv) (cid : string)
    (command : option string) (use_pexpect : bool) (st : State)
  : result PendingCreate :=
  if bool_decide (max_sessions (manager st) ≤ len_sessions st) then
    Raised (RuntimeError (max_sessions (manager st)))
  else
    match Pty.containers_get (docker env) cid with
    | Some e => Raised e
    | None =>
        Returned {| pc_env := env; pc_container_id := cid;
                    pc_command := command; pc_use_pexpect := use_pexpect |}
    end.

(** Lines 130-151: from the completion of [connect] to the return. *)
Definition create_session_resume (p : PendingCreate) (st : State)
  : result string * State :=
  let env := pc_env p in
  match Pty.connect (docker env) (pc_container_id p) (pc_command p) with
  | Raised e => (Raised e, st)
  | Returned pty =>
      let pexpect :=
        if pc_use_pexpect p
        then Some {| Pexpect._buffer := EmptyString; Pexpect._patterns := [] |}
        else None in
      let session :=
        {| session_id := uuid4 env; container_id := pc_container_id p;
           pty_handler := pty; pexpect_handler := pexpect;
           created_at := utcnow_created env;
           last_activity := utcnow_activity env;
           active := true; _output_callbacks := [] |} in
      let r : ref := fresh (dom (heap st)) in
      (Returned (uuid4 env),
       {| heap := <[r := session]> (heap st);
          manager := set_sessions (<[uuid4 env := r]> (sessions (manager st)))
                       (manager st) |})
  end.

(** [create_session] when nothing else runs while it awaits. *)
Definition create_session (env : CreateEnv) (cid : string)
    (command : option string) (use_pexpect : bool) (st : State)
  : result string * State :=
  match create_session_begin env cid command use_pexpect st with
  | Raised e => (Raised e, st)
  | Returned p => create_session_resume p st
  end.

(** Lines 153-162: [get_session]; the answer is the object behind the
    reference, [None] for Python's [None]. *)
Definition get_session (sid : string) (st : State) : option Session :=
  r ← sessions (manager st) !! sid; heap st !! r.

(** Lines 164-181: [close_session] *)
Definition close_session (sid : string) (st : State) : bool * State :=
  match sessions (manager st) !! sid with
  | None => (false, st)
  | Some r =>
      (true,
       {| heap := alter close r (heap st);
          manager := set_sessions (delete sid (sessions (manager st)))
                       (manager st) |})
  end.

(** Lines 183-198: [list_sessions]; the order of the dictionary is not
    kept by the model. *)
Record descriptor : Type := {
  d_session_id : string;
  d_container_id : string;
  d_created_at : Z;
  d_last_activity : Z;
  d_active : bool
}.

Definition describe (s : Session) : descriptor :=
  {| d_session_id := session_id s; d_container_id := container_id s;
     d_created_at := created_at s; d_last_activity := last_activity s;
     d_active := active s |}.

Definition list_sessions (st : State) : list descriptor :=
  omap (fun kv => describe <$> heap st !! kv.2)
       (map_to_list (sessions (manager st))).

(** Lines 245-257: one pass of [_cleanup_loop] at time [now]
    (microseconds): collect the ids past the timeout, then close them. *)
Definition timeout_delta (st : State) : Z :=
  timeout_seconds (manager st) * 1000000.

Definition is_timed_out (now : Z) (st : State) (r : ref) : bool :=
  match heap st !! r with
  | Some session => bool_decide (timeout_delta st < now - last_activity session)
  | None => false
  end.

Definition timed_out (now : Z) (st : State) : list string :=
  fst <$> List.filter (fun kv => is_timed_out now st kv.2)
                      (map_to_list (sessions (manager st))).

Definition close_all (ids : list string) (st : State) : State :=
  foldl (fun st sid => (close_session sid st).2) st ids.

Definition _cleanup_loop_pass (now : Z) (st : State) : State :=
  close_all (timed_out now st) st.

(** Lines 264-267: [cleanup] *)
Definition cleanup (st : State) : State :=
  close_all (fst <$> map_to_list (sessions (manager st))) st.

End Sessions.

(** ** session_manager.py: the relay loop [_read_output] *)

Module Relay.
Import Sessions.

(** What a callback may do to the session that calls it, besides
    consuming the data: subscribe or unsubscribe a callback, through
    [add_output_callback] and [remove_output_callback]; and it may end
    by raising an [Exception]. *)
Inductive sub_op : Type :=
| Add (c : callback)
| Remove (c : callback).

Record effect : Type := { ops : list sub_op; raises : bool }.

(** The callbacks' code: what callback [c] does when called on [data]. *)
Definition behaviour : Type := callback -> string -> effect.

Definition run_op (s : Session) (op : sub_op) : Session :=
  match op with
  | Add c => add_output_callback c s
  | Remove c => remove_output_callback c s
  end.

Definition run_ops (l : list sub_op) (s : Session) : Session :=
  foldl run_op s l.

(** What the loop leaves behind: the calls [callback(data)] it made, in
    order, and the number of [logger.error] lines. *)
Record Log : Type := {
  delivered : list (callback * string);
  errors : nat
}.

Definition empty_log : Log := {| delivered := []; errors := O |}.

Definition record_call (c : callback) (data : string) (raised : bool)
    (lg : Log) : Log :=
  {| delivered := delivered lg ++ [(c, data)];
     errors := if raised then S (errors lg) else errors lg |}.

(** Lines 211-215: [for callback in session._output_callbacks], the list
    iterator being at index [i].  The iterator reads the list object
    itself at each step, so it sees what the callbacks did to it.
    [fuel] bounds the number of steps. *)
Fixpoint notify (fuel : nat) (behave : behaviour) (data : string)
    (i : nat) (s : Session) (lg : Log) : option (Session * Log) :=
  match fuel with
  | O => None
  | S fuel' =>
      match _output_callbacks s !! i with
      | None => Some (s, lg)
      | Some c =>
          let e := behave c data in
          notify fuel' behave data (S i) (run_ops (ops e) s)
                 (record_call c data (raises e) lg)
      end
  end.

(** Lines 208-218: one turn of the [while session.active] loop. *)
Definition read_output_turn (fuel : nat) (behave : behaviour)
    (s : Session) (lg : Log) : option (Session * Log) :=
  let '(data, pty) := Pty.read (pty_handler s) in
  let s1 := set_pty pty s in
  if bool_decide (data = EmptyString) then Some (s1, lg)
  else notify fuel behave data 0 s1 lg.

(** Lines 207-222: the first [turns] turns of the loop, when no other
    task touches the session in between.  [PTYHandler.read] handles its
    own exceptions and the callbacks' are caught inside the pass, so the
    outer [except] clause is not entered. *)
Fixpoint _read_output (turns fuel : nat) (behave : behaviour)
    (s : Session) (lg : Log) : option (Session * Log) :=
  match turns with
  | O => Some (s, lg)
  | S turns' =>
      if active s then
        match read_output_turn fuel behave s lg with
        | None => None
        | Some (s', lg') => _read_output turns' fuel behave s' lg'
        end
      else Some (s, lg)
  end.

(** The chunks callback [c] was called with, in order. *)
Definition received_by (c : callback) (lg : Log) : list string :=
  snd <$> List.filter (fun p => bool_decide (p.1 = c)) (delivered lg).

Definition nonempty (data : string) : bool :=
  negb (bool_decide (data = EmptyString)).

(** The same callbacks, none of them raising. *)
Definition calm (behave : behaviour) : behaviour :=
  fun c data => {| ops := ops (behave c data); raises := false |}.

(** What a run shows besides the error log: the session it leaves and
    the calls it made. *)
Definition visible (r : option (Session * Log))
  : option (Session * list (callback * string)) :=
  (fun p => (p.1, delivered p.2)) <$> r.

(** The calls of one pass over the subscribers [cbs] with [data]. *)
Definition calls (cbs : list callback) (data : string)
  : list (callback * string) :=
  (fun c => (c, data)) <$> cbs.

Definition is_add (op : sub_op) : Prop :=
  match op with Add _ => True | Remove _ => False end.

End Relay.

(** ** session_manager.py under the event loop *)

Module Async.
Import Sessions.

(** Tasks of the event loop interleave at their [await]s.  In
    [create_session] the only one is [await pty_handler.connect], between
    the capacity check and the insertion; [close_session] and the body of
    a cleanup pass have none. *)
Record System : Type := {
  state : State;
  awaiting : list PendingCreate
}.

Inductive event : Type :=
| CreateBegin (env : CreateEnv) (cid : string) (command : option string)
              (use_pexpect : bool)
| CreateResume (i : nat)
| Close (sid : string)
| Reap (now : Z).

Definition run_event (sys : System) (ev : event) : System :=
  match ev with
  | CreateBegin env cid command use_pexpect =>
      match create_session_begin env cid command use_pexpect (state sys) with
      | Raised _ => sys
      | Returned p => {| state := state sys; awaiting := awaiting sys ++ [p] |}
      end
  | CreateResume i =>
      match awaiting sys !! i with
      | None => sys
      | Some p =>
          {| state := (create_session_resume p (state sys)).2;
             awaiting := delete i (awaiting sys) |}
      end
  | Close sid =>
      {| state := (close_session sid (state sys)).2; awaiting := awaiting sys |}
  | Reap now =>
      {| state := _cleanup_loop_pass now (state sys); awaiting := awaiting sys |}
  end.

Definition run (schedule : list event) (sys : System) : System :=
  foldl run_event sys schedule.

Definition start (max timeout : Z) : System :=
  {| state := init max timeout; awaiting := [] |}.

Definition reachable (max timeout : Z) (sys : System) : Prop :=
  exists schedule, run schedule (start max timeout) = sys.

End Async.

(** ** Sample environments *)

Module Fixtures.
Import Sessions.

(** A clock that advances one second per reading. *)
Definition tick_clock : nat -> Z := fun t => Pexpect.seconds (Z.of_nat t).

Definition fresh_socket : Pty.Socket :=
  {| Pty.pending := []; Pty.sent := []; Pty.closed := false |}.

(** A runtime in which every container exists and every exec succeeds. *)
Definition docker_up : Pty.Docker :=
  {| Pty.containers_get := fun _ => None;
     Pty.exec_run := fun _ _ => Returned fresh_socket |}.

(** A runtime in which the container exists but the exec is refused. *)
Definition docker_refusing : Pty.Docker :=
  {| Pty.containers_get := fun _ => None;
     Pty.exec_run := fun _ _ => Raised (DockerError "exec refused") |}.

Definition env_at (d : Pty.Docker) (id : string) (now : Z) : CreateEnv :=
  {| uuid4 := id; docker := d; utcnow_created := now; utcnow_activity := now |}.

(** An active session with subscribers [cbs] whose channel will deliver
    [chunks]. *)
Definition session_with (cbs : list callback) (chunks : list string)
  : Session :=
  {| session_id := "id-1"; container_id := "box";
     pty_handler := {| Pty.container_id := "box"; Pty._connected := true;
                       Pty._socket := {| Pty.pending := chunks;
                                         Pty.sent := [];
                                         Pty.closed := false |} |};
     pexpect_handler := None; created_at := 0; last_activity := 0;
     active := true; _output_callbacks := cbs |}.

(** Callback 1 unsubscribes itself when called; the others do nothing. *)
Definition one_shot : Relay.behaviour :=
  fun c _ => {| Relay.ops := if bool_decide (c = 1%nat) then [Relay.Remove 1%nat]
                             else [];
                Relay.raises := false |}.

(** Callback 1 subscribes callback 3 when called; the others do nothing. *)
Definition recruiter : Relay.behaviour :=
  fun c _ => {| Relay.ops := if bool_decide (c = 1%nat) then [Relay.Add 3%nat]
                             else [];
                Relay.raises := false |}.

(** Callback 1 raises on every call; nobody changes the subscriptions. *)
Definition first_throws : Relay.behaviour :=
  fun c _ => {| Relay.ops := []; Relay.raises := bool_decide (c = 1%nat) |}.

(** One session, created at time 0, in a manager of capacity 1. *)
Definition one_session : State :=
  (create_session (env_at docker_up "id-1" 0) "box" None false
     (init 1 3600)).2.

(** Two sessions in a manager of capacity 5 with a timeout of one hour:
    ["old"] last active at time 0, ["new"] created one hour later and
    sent input half an hour after that. *)
Definition old_and_new : State :=
  let st1 := (create_session (env_at docker_up "old" 0) "box" None false
                (init 5 3600)).2 in
  let st2 := (create_session (env_at docker_up "new" (Pexpect.seconds 3600))
                "box" None true st1).2 in
  {| heap := alter (send_input (Pexpect.seconds 5400) "ls") 1%nat (heap st2);
     manager := manager st2 |}.

End Fixtures.

(** ** session_manager.py: operations one after the other *)

Module Registry.
Import Sessions.

(** [session = get_session(sid)] followed by a method call on the object:
    the object behind the reference changes, for every holder of the
    reference; an unknown id leaves everything as it is. *)
Definition on_session (sid : string) (f : Session -> Session) (st : State)
  : State :=
  match sessions (manager st) !! sid with
  | Some r => {| heap := alter f r (heap st); manager := manager st |}
  | None => st
  end.

(** The calls a client of the manager makes, none of them overlapping
    another. *)
Inductive op : Type :=
| Create (env : CreateEnv) (cid : string) (command : option string)
         (use_pexpect : bool)
| CloseSession (sid : string)
| CleanupPass (now : Z)
| Cleanup
| SendInput (sid : string) (utcnow : Z) (data : string)
| AddCallback (sid : string) (c : callback)
| RemoveCallback (sid : string) (c : callback).

Definition step (st : State) (o : op) : State :=
  match o with
  | Create env cid command use_pexpect =>
      (create_session env cid command use_pexpect st).2
  | CloseSession sid => (close_session sid st).2
  | CleanupPass now => _cleanup_loop_pass now st
  | Cleanup => cleanup st
  | SendInput sid utcnow data => on_session sid (send_input utcnow data) st
  | AddCallback sid c => on_session sid (add_output_callback c) st
  | RemoveCallback sid c => on_session sid (remove_output_callback c) st
  end.

Definition run (ops : list op) (st : State) : State := foldl step st ops.

(** A registered session is a live one stored under its own id. *)
Definition live_under (sid : string) (s : Session) : Prop :=
  session_id s = sid /\ active s = true /\
  Pty._connected (pty_handler s) = true.

Definition consistent (st : State) : Prop :=
  forall sid r,
    sessions (manager st) !! sid = Some r ->
    exists s, heap st !! r = Some s /\ live_under sid s.

(** The number of times [c] is subscribed. *)
Definition subscriptions (c : callback) (l : list callback) : nat :=
  length (List.filter (fun x => bool_decide (x = c)) l).

Definition is_remove (op : Relay.sub_op) : Prop :=
  match op with Relay.Remove _ => True | Relay.Add _ => False end.

End Registry.

(** ** api/websocket.py *)

Module WebSocket.

(** A connection is its identity. *)
Definition conn : Type := nat.

(** [active_connections]: session id to set of connections. *)
Abbreviation connections := (gmap string (gset conn)).

(** Lines 19-32: [connect], after [websocket.accept()]. *)
Definition connect (ws : conn) (sid : string) (m : connections)
  : connections :=
  match m !! sid with
  | None => <[sid := {[ws]}]> m
  | Some s => <[sid := s ∪ {[ws]}]> m
  end.

(** Lines 34-48: [disconnect] *)
Definition disconnect (ws : conn) (sid : string) (m : connections)
  : connections :=
  match m !! sid with
  | None => m
  | Some s =>
      let s' := s ∖ {[ws]} in
      if decide (s' = ∅) then delete sid m else <[sid := s']> m
  end.

(** Whether [websocket.send_json(message)] returns, for each connection. *)
Definition transport : Type := conn -> string -> bool.

(** Lines 50-69: [send_to_session], when no other task runs during its
    [await]s.  The result carries the connections whose send returned,
    in the order of the iteration over the set. *)
Definition send_to_session (send_ok : transport) (sid : string)
    (message : string) (m : connections) : connections * list conn :=
  match m !! sid with
  | None => (m, [])
  | Some s =>
      let targets := elements s in
      let disconnected :=
        List.filter (fun ws => negb (send_ok ws message)) targets in
      (foldl (fun m ws => disconnect ws sid m) m disconnected,
       List.filter (fun ws => send_ok ws message) targets)
  end.

(** Lines 71-79: [broadcast], over [list(self.active_connections.keys())]. *)
Definition broadcast (send_ok : transport) (message : string)
    (m : connections) : connections * list (string * conn) :=
  foldl (fun acc sid =>
           let '(m', served) := send_to_session send_ok sid message acc.1 in
           (m', acc.2 ++ ((fun ws => (sid, ws)) <$> served)))
        (m, []) ((map_to_list m).*1).

(** What is kept for a session once [ws] has left it. *)
Definition without (ws : conn) (o : option (gset conn)) : option (gset conn) :=
  s ← o;
  let s' := s ∖ {[ws]} in
  if decide (s' = ∅) then None else Some s'.

(** No session id is kept with an empty set. *)
Definition pruned (m : connections) : Prop :=
  forall sid s, m !! sid = Some s -> s ≠ ∅.

(** The connections of [s] whose send returns. *)
Definition reachable_conns (send_ok : transport) (message : string)
    (s : gset conn) : gset conn :=
  filter (fun ws => send_ok ws message = true) s.

(** What is kept for a session once a message went through it. *)
Definition survivors (send_ok : transport) (message : string)
    (o : option (gset conn)) : option (gset conn) :=
  s ← o;
  let s' := reachable_conns send_ok message s in
  if decide (s' = ∅) then None else Some s'.

End WebSocket.

(** ** api/routes/sessions.py and api/routes/automation.py *)

Module Routes.
Import Sessions.

(** What leaves a route: a body, an [HTTPException], or an exception the
    route does not handle. *)
Inductive detail : Type :=
| Message (s : string)
| Str (e : exn).

Inductive error : Type :=
| PyExn (e : exn)
| IndexError.

Inductive response (A : Type) : Type :=
| OK (body : A)
| HTTPException (status_code : Z) (d : detail)
| Propagated (e : error).
Arguments OK {A} body.
Arguments HTTPException {A} status_code d.
Arguments Propagated {A} e.

(** *** sessions.py *)

Record SessionCreateRequest : Type := {
  r_container_id : string;
  r_command : option string;
  r_use_automation : bool
}.

Record created : Type := {
  c_session_id : string;
  c_container_id : string;
  c_created : bool
}.

(** Lines 41-62, with [Orchestrator.create_session] (orchestrator.py
    lines 104-128) in between. *)
Definition create_session (env : CreateEnv) (request : SessionCreateRequest)
    (st : State) : response created * State :=
  match Sessions.create_session env (r_container_id request)
          (r_command request) (r_use_automation request) st with
  | (Returned sid, st') =>
      (OK {| c_session_id := sid; c_container_id := r_container_id request;
             c_created := true |}, st')
  | (Raised (RuntimeError n), st') =>
      (HTTPException 503 (Str (RuntimeError n)), st')
  | (Raised e, st') => (HTTPException 500 (Str e), st')
  end.

(** Lines 65-85 *)
Definition get_session (sid : string) (st : State) : response descriptor :=
  match Sessions.get_session sid st with
  | None => HTTPException 404 (Message "Session not found")
  | Some session => OK (describe session)
  end.

(** Lines 88-103 *)
Definition close_session (sid : string) (st : State)
  : response (bool * string) * State :=
  let '(success, st') := Sessions.close_session sid st in
  if success then (OK (true, sid), st')
  else (HTTPException 404 (Message "Session not found"), st').

(** Lines 106-122 *)
Definition send_input (utcnow : Z) (sid : string) (data : string) (st : State)
  : response bool * State :=
  match Sessions.get_session sid st with
  | None => (HTTPException 404 (Message "Session not found"), st)
  | Some _ =>
      (OK true, Registry.on_session sid (Sessions.send_input utcnow data) st)
  end.

(** *** automation.py *)












End Routes.

(** ** api/app.py: the websocket endpoint *)

Module Endpoint.
Import Sessions.








End Endpoint.

(** ** More sample environments *)

Module Samples.
Import Sessions.

(** A world whose clock advances one second per reading and whose channel
    will deliver [chunks]. *)
Definition world_with (chunks : list string) : Pexpect.World :=
  {| Pexpect.clock := Fixtures.tick_clock; Pexpect.ticks := O;
     Pexpect.incoming := chunks; Pexpect.written := []; Pexpect.slept := O |}.

Definition handler_with (buffer : string) : Pexpect.PexpectHandler :=
  {| Pexpect._buffer := buffer; Pexpect._patterns := [] |}.

(** Connection 1 is gone; every other connection takes its messages. *)
Definition one_is_gone : WebSocket.transport :=
  fun ws _ => negb (bool_decide (ws = 1%nat)).

(** Session ["a"] with connections 1 and 2, session ["b"] with
    connection 1. *)
Definition two_rooms : WebSocket.connections :=
  WebSocket.connect 1%nat "b"
    (WebSocket.connect 2%nat "a" (WebSocket.connect 1%nat "a" ∅)).

(** A manager holding one session with automation, ["auto"], and one
    without, ["plain"]. *)
Definition with_automation : State :=
  (create_session (Fixtures.env_at Fixtures.docker_up "plain" 1) "box" None
     false
     (create_session (Fixtures.env_at Fixtures.docker_up "auto" 0) "box" None
        true (init 5 3600)).2).2.

(** A manager of capacity 2 after three creations, one close and one
    input. *)
Definition busy_day : list Registry.op :=
  [ Registry.Create (Fixtures.env_at Fixtures.docker_up "s1" 0) "box" None true;
    Registry.Create (Fixtures.env_at Fixtures.docker_up "s2" 5) "box" None false;
    Registry.Create (Fixtures.env_at Fixtures.docker_up "s3" 6) "box" None false;
    Registry.CloseSession "s1";
    Registry.SendInput "s2" 9 "ls";
    Registry.AddCallback "s2" 4%nat ].

End Samples.

(** * Properties *)

(** ** Strings and literal patterns *)

Module PyFacts.

Lemma str_app_cons a s t : String a s +:+ t = String a (s +:+ t).
Proof. reflexivity. Qed.

Lemma str_app_nil_r s : s +:+ EmptyString = s.
Proof. induction s as [|a s IH]; [done|]. by rewrite str_app_cons, IH. Qed.

Lemma str_app_assoc s t u : (s +:+ t) +:+ u = s +:+ (t +:+ u).
Proof.
  induction s as [|a s IH]; [done|]. by rewrite !str_app_cons, IH.
Qed.

Lemma str_concat_take_S (l : list string) k :
  str_concat (take (S k) l) = str_concat (take 1 l) +:+ str_concat (take k (drop 1 l)).
Proof.
  destruct l as [|x l]; simpl.
  - by rewrite take_nil.
  - by rewrite drop_0, str_app_nil_r.
Qed.

Lemma prefix_true_split p s :
  String.prefix p s = true -> s = p +:+ str_drop (String.length p) s.
Proof.
  revert s. induction p as [|a p IH]; intros s; [done|].
  destruct s as [|b s]; [done|]. simpl.
  destruct (Ascii.ascii_dec a b) as [->|]; [|done].
  intros H. rewrite str_app_cons. f_equal. by apply IH.
Qed.

(** [find] answers with an offset at which the needle really occurs. *)
Lemma find_occurs needle hay i :
  find needle hay = Some i ->
  exists before,
    String.length before = i /\
    hay = before +:+ needle +:+ str_drop (i + String.length needle) hay.
Proof.
  revert i. induction hay as [|b hay IH]; intros i; cbn [find].
  - destruct (String.prefix needle EmptyString) eqn:Hp; [|done].
    intros [= <-]. exists EmptyString. split; [done|].
    by apply prefix_true_split in Hp.
  - destruct (String.prefix needle (String b hay)) eqn:Hp.
    + intros [= <-]. exists EmptyString. split; [done|].
      by apply prefix_true_split in Hp.
    + destruct (find needle hay) as [i'|] eqn:Hf; [|done].
      intros [= <-]. destruct (IH i' eq_refl) as (before & Hlen & Heq).
      exists (String b before). split; [by simpl; rewrite Hlen|].
      rewrite str_app_cons. f_equal. exact Heq.
Qed.

(** A literal pattern matches exactly an occurrence of the literal: the
    buffer is what precedes the match, the literal, and what follows the
    end offset. *)
Lemma compile_escape_search p buf m :
  re.search (re.compile_escape p) buf = Some m ->
  re.m_end m = (re.m_start m + String.length p)%nat /\
  exists before,
    String.length before = re.m_start m /\
    buf = before +:+ p +:+ str_drop (re.m_end m) buf.
Proof.
  simpl. destruct (find p buf) as [i|] eqn:Hf; [|done].
  intros [= <-]. simpl. split; [done|]. by apply find_occurs.
Qed.

End PyFacts.

(** ** The expect engine *)

Module PexpectFacts.
Import re Pexpect PyFacts.

(** The enumeration loop answers with the first pattern, in list order,
    that matches. *)
Lemma check_patterns_Some compiled buf : forall i0 i m,
  check_patterns i0 compiled buf = Some (i, m) ->
  exists k p,
    i = (i0 + k)%nat /\ compiled !! k = Some p /\ search p buf = Some m /\
    forall j q, (j < k)%nat -> compiled !! j = Some q -> search q buf = None.
Proof.
  induction compiled as [|p rest IH]; intros i0 i m; [done|]. simpl.
  destruct (search p buf) as [m'|] eqn:Hs.
  - intros [= <- <-]. exists O, p. repeat split; (done || lia).
  - intros H. destruct (IH _ _ _ H) as (k & q & -> & Hk & Hq & Hbefore).
    exists (S k), q. split; [lia|]. do 2 (split; [done|]).
    intros [|j] q' Hj; simpl; [by intros [= <-]|].
    apply Hbefore. lia.
Qed.

Lemma check_patterns_None compiled buf : forall i0,
  check_patterns i0 compiled buf = None <->
  forall p, p ∈ compiled -> search p buf = None.
Proof.
  induction compiled as [|p rest IH]; intros i0; simpl.
  - split; [|done]. intros _ p Hp. by apply elem_of_nil in Hp.
  - destruct (search p buf) as [m|] eqn:Hs.
    + split; [done|]. intros H. rewrite (H p) in Hs; [done|]. apply list_elem_of_here.
    + rewrite IH. split.
      * intros H q [->|Hq]%elem_of_cons; auto.
      * intros H q Hq. apply H. by apply list_elem_of_further.
Qed.

(** One poll moves the buffer from the content after [k] reads to the
    content after [k + 1] reads, and touches nothing but the channel. *)
Lemma poll_spec w h w2 h1 :
  poll (time_time w).2 h = (w2, h1) ->
  _buffer h1 = accumulated 1 w h /\ _patterns h1 = _patterns h /\
  incoming w2 = drop 1 (incoming w) /\ clock w2 = clock w /\
  ticks w2 = S (ticks w) /\ written w2 = written w.
Proof.
  unfold poll, pty_read, accumulated, time_time. simpl.
  destruct (incoming w) as [|chunk rest] eqn:Hin; simpl.
  - intros [= <- <-]. simpl. by rewrite str_app_nil_r.
  - intros [= <- <-]. simpl. rewrite drop_0, str_app_nil_r.
    case_bool_decide as Hc; simpl; [|done].
    by rewrite Hc, str_app_nil_r.
Qed.

Lemma accumulated_S k w h w2 h1 :
  _buffer h1 = accumulated 1 w h ->
  incoming w2 = drop 1 (incoming w) ->
  accumulated k (time_sleep w2) h1 = accumulated (S k) w h.
Proof.
  unfold accumulated. simpl. intros -> ->.
  by rewrite str_app_assoc, <- str_concat_take_S.
Qed.

Lemma expect_loop_returned compiled start_time timeout :
  forall fuel w h i w' h',
    expect_loop fuel compiled start_time timeout w h = Some (Returned i, w', h') ->
    exists k p m,
      (1 <= k)%nat /\
      compiled !! i = Some p /\
      search p (accumulated k w h) = Some m /\
      (forall j q, (j < i)%nat -> compiled !! j = Some q ->
                   search q (accumulated k w h) = None) /\
      (forall j q, (1 <= j < k)%nat -> q ∈ compiled ->
                   search q (accumulated j w h) = None) /\
      _buffer h' = str_drop (m_end m) (accumulated k w h) /\
      incoming w' = drop k (incoming w).
Proof.
  induction fuel as [|fuel IH]; intros w h i w' h'; [done|].
  cbn [expect_loop].
  destruct (time_time w) as [now w1] eqn:Ht.
  case_bool_decide as Hnow; [|done].
  destruct (poll w1 h) as [w2 h1] eqn:Hp.
  assert (w1 = (time_time w).2) as Hw1 by (by rewrite Ht).
  rewrite Hw1 in Hp. apply poll_spec in Hp as (Hb & _ & Hin & _).
  destruct (check_patterns 0 compiled (_buffer h1)) as [[i' m]|] eqn:Hc.
  - intros [= <- <- <-].
    apply check_patterns_Some in Hc as (k & p & -> & Hk & Hs & Hbefore).
    rewrite Hb in Hs, Hbefore.
    exists 1%nat, p, m. simpl. rewrite Hb.
    repeat split; (done || lia).
  - intros H. apply IH in H
      as (k & p & m & Hk & Hi & Hs & Hbefore & Hearlier & Hbuf & Hw').
    rewrite (accumulated_S _ _ _ _ _ Hb Hin) in Hs, Hbefore, Hbuf.
    exists (S k), p, m. split; [lia|]. do 3 (split; [done|]). split; [|split; [done|]].
    + intros j q Hj Hq. destruct (decide (j = 1%nat)) as [->|Hne].
      * rewrite <- Hb. eapply check_patterns_None; eauto.
      * destruct j as [|j]; [lia|].
        rewrite <- (accumulated_S _ _ _ _ _ Hb Hin). apply Hearlier; [lia|done].
    + rewrite Hw'. simpl. rewrite Hin. by rewrite drop_drop.
Qed.


(** The loop ends as soon as a reading of the clock is at or past the
    deadline: with the [N]-th next reading there, [N + 1] checks of the
    condition are enough for an answer. *)
Lemma expect_loop_terminates compiled start_time timeout :
  forall N w h,
    timeout <= clock w (ticks w + N) - start_time ->
    exists r, expect_loop (S N) compiled start_time timeout w h = Some r.
Proof.
  induction N as [|N IH]; intros w h Hout; cbn [expect_loop time_time].
  - rewrite Nat.add_0_r in Hout. rewrite bool_decide_false by lia. eauto.
  - case_bool_decide as Hnow; [|by eauto].
    destruct (poll _ h) as [w2 h1] eqn:Hp.
    apply (poll_spec w h) in Hp as (_ & _ & _ & Hclock & Hticks & _).
    destruct (check_patterns 0 compiled (_buffer h1)) as [[i m]|]; [by eauto|].
    apply IH. simpl. rewrite Hclock, Hticks.
    by replace (S (ticks w) + N)%nat with (ticks w + S N)%nat by lia.
Qed.

(** What [send_command] hands back when it waited for the prompt: the
    text that followed the prompt in the buffer; the text that came
    before the prompt is not part of it. *)
Lemma send_command_returned fuel command prompt w h out w' h' :
  send_command fuel command true prompt w h = Some (Returned out, w', h') ->
  exists k before,
    str_concat (take k (incoming w)) = before +:+ prompt +:+ out.
Proof.
  unfold send_command.
  destruct (expect fuel (One (PStr prompt)) (seconds 30) (sendline command w)
              (set_buffer EmptyString h)) as [[[[i|e] w2] h2]|] eqn:He; [|done..].
  intros [= <- <- <-]. unfold expect in He.
  apply expect_loop_returned in He
    as (k & p & m & _ & Hp & Hs & _ & _ & Hbuf & _).
  destruct i as [|i]; [|done]. injection Hp as <-.
  apply compile_escape_search in Hs as (_ & before & _ & Heq).
  exists k, before. rewrite Hbuf. exact Heq.
Qed.





(** C2.  [send_command("ls", expect_prompt=True, prompt="$")] on a
    channel that answers with the listing, the prompt and a blank: the
    buffer is cleared, the command and a newline are written, the prompt
    is awaited, and what comes back is the blank that followed the
    prompt, not the listing that came between the send and the prompt. *)
Theorem send_command_returns_text_after_prompt :
  let listing := ("a.txt" +:+ newline)%string in
  let w := {| clock := Fixtures.tick_clock; ticks := O;
              incoming := [(listing +:+ "$ ")%string];
              written := []; slept := O |} in
  let h := {| _buffer := "stale"; _patterns := [] |} in
  exists w' h',
    send_command 2 "ls" true "$" w h = Some (Returned " "%string, w', h') /\
    written w' = [("ls" +:+ newline)%string] /\
    " "%string <> listing.
Proof.
  vm_compute. eexists _, _. split; [reflexivity|]. split; [reflexivity|].
  discriminate.
Qed.

End PexpectFacts.

(** ** The session registry *)

Module SessionsFacts.
Import Sessions.

Lemma close_closed_object s : closed_object (close s).
Proof. done. Qed.

Lemma close_session_None sid st :
  sessions (manager st) !! sid = None -> close_session sid st = (false, st).
Proof. unfold close_session. by intros ->. Qed.

Lemma close_session_Some sid st r :
  sessions (manager st) !! sid = Some r ->
  close_session sid st
  = (true, {| heap := alter close r (heap st);
              manager := set_sessions (delete sid (sessions (manager st)))
                           (manager st) |}).
Proof. unfold close_session. by intros ->. Qed.

(** Closing one id leaves the other entries of the dictionary alone. *)
Lemma close_session_sessions sid st sid' :
  sessions (manager (close_session sid st).2) !! sid'
  = if bool_decide (sid' = sid) then None else sessions (manager st) !! sid'.
Proof.
  unfold close_session.
  destruct (sessions (manager st) !! sid) as [r|] eqn:Hs; simpl.
  - case_bool_decide as H; [subst; apply lookup_delete_eq|].
    by apply lookup_delete_ne.
  - case_bool_decide as H; [by subst|done].
Qed.

Lemma close_session_heap_other sid st r :
  sessions (manager st) !! sid <> Some r ->
  heap (close_session sid st).2 !! r = heap st !! r.
Proof.
  unfold close_session.
  destruct (sessions (manager st) !! sid) as [r0|] eqn:Hs; simpl; [|done].
  intros Hne. apply lookup_alter_ne. congruence.
Qed.

Lemma close_session_heap_closed sid st r s :
  heap st !! r = Some s -> closed_object s ->
  exists s', heap (close_session sid st).2 !! r = Some s' /\ closed_object s'.
Proof.
  intros Hr Hc. unfold close_session.
  destruct (sessions (manager st) !! sid) as [r0|]; simpl; [|by eauto].
  destruct (decide (r0 = r)) as [->|Hne].
  - rewrite lookup_alter_eq, Hr. simpl. eauto using close_closed_object.
  - rewrite lookup_alter_ne by done. eauto.
Qed.

Lemma close_session_heap_is_Some sid st r s :
  heap st !! r = Some s ->
  exists s', heap (close_session sid st).2 !! r = Some s'.
Proof.
  intros Hr. unfold close_session.
  destruct (sessions (manager st) !! sid) as [r0|]; simpl; [|by eauto].
  destruct (decide (r0 = r)) as [->|Hne].
  - rewrite lookup_alter_eq, Hr. simpl. eauto.
  - rewrite lookup_alter_ne by done. eauto.
Qed.

Lemma close_all_cons sid ids st :
  close_all (sid :: ids) st = close_all ids (close_session sid st).2.
Proof. done. Qed.

Lemma close_all_sessions ids : forall st sid,
  sessions (manager (close_all ids st)) !! sid
  = if bool_decide (sid ∈ ids) then None else sessions (manager st) !! sid.
Proof.
  induction ids as [|sid0 ids IH]; intros st sid.
  - rewrite bool_decide_false; [done|]. apply not_elem_of_nil.
  - rewrite close_all_cons, IH, close_session_sessions.
    destruct (decide (sid = sid0)) as [->|Hne].
    + rewrite !(bool_decide_true (sid0 = sid0)) by done.
      rewrite (bool_decide_true (sid0 ∈ sid0 :: ids)) by apply list_elem_of_here.
      by destruct (bool_decide (sid0 ∈ ids)).
    + rewrite (bool_decide_false (sid = sid0)) by done.
      rewrite (bool_decide_ext (sid ∈ sid0 :: ids) (sid ∈ ids)); [done|].
      rewrite elem_of_cons. tauto.
Qed.

Lemma close_all_heap_other ids : forall st r,
  (forall sid, sid ∈ ids -> sessions (manager st) !! sid <> Some r) ->
  heap (close_all ids st) !! r = heap st !! r.
Proof.
  induction ids as [|sid0 ids IH]; intros st r Hother; [done|].
  rewrite close_all_cons, IH.
  - apply close_session_heap_other, Hother. set_solver.
  - intros sid Hsid. rewrite close_session_sessions.
    case_bool_decide; [done|]. apply Hother. set_solver.
Qed.

Lemma close_all_heap_closed ids : forall st r s,
  heap st !! r = Some s -> closed_object s ->
  exists s', heap (close_all ids st) !! r = Some s' /\ closed_object s'.
Proof.
  induction ids as [|sid0 ids IH]; intros st r s Hr Hc; [by eauto|].
  rewrite close_all_cons.
  destruct (close_session_heap_closed sid0 st r s Hr Hc) as (s1 & Hr1 & Hc1).
  eauto.
Qed.

Lemma close_all_closes ids : forall st sid r s,
  sid ∈ ids ->
  sessions (manager st) !! sid = Some r -> heap st !! r = Some s ->
  exists s', heap (close_all ids st) !! r = Some s' /\ closed_object s'.
Proof.
  induction ids as [|sid0 ids IH]; intros st sid r s Hin Hsid Hr.
  - by apply elem_of_nil in Hin.
  - rewrite close_all_cons.
    destruct (decide (sid0 = sid)) as [->|Hne].
    + eapply close_all_heap_closed; [|apply close_closed_object].
      rewrite (close_session_Some _ _ _ Hsid). simpl.
      by rewrite lookup_alter_eq, Hr.
    + destruct (close_session_heap_is_Some sid0 st r s Hr) as (s1 & Hr1).
      apply elem_of_cons in Hin as [Heq|Hin]; [congruence|].
      apply (IH _ sid r s1); [done| |done].
      rewrite close_session_sessions. by rewrite bool_decide_false.
Qed.

Lemma close_all_config ids : forall st,
  max_sessions (manager (close_all ids st)) = max_sessions (manager st) /\
  timeout_seconds (manager (close_all ids st)) = timeout_seconds (manager st).
Proof.
  induction ids as [|sid0 ids IH]; intros st; [done|].
  rewrite close_all_cons.
  destruct (IH (close_session sid0 st).2) as [-> ->].
  unfold close_session. by destruct (sessions (manager st) !! sid0).
Qed.

(** The ids a cleanup pass collects. *)
Lemma elem_of_timed_out now st sid :
  sid ∈ timed_out now st <->
  exists r, sessions (manager st) !! sid = Some r /\ is_timed_out now st r = true.
Proof.
  unfold timed_out. rewrite list_elem_of_fmap. split.
  - intros ([sid' r] & -> & Hin). apply list_elem_of_In, filter_In in Hin as [Hin Ht].
    apply list_elem_of_In, elem_of_map_to_list in Hin. eauto.
  - intros (r & Hs & Ht). exists (sid, r). split; [done|].
    apply list_elem_of_In, filter_In. split; [|done].
    by apply list_elem_of_In, elem_of_map_to_list.
Qed.

Lemma is_timed_out_spec now st r s :
  heap st !! r = Some s ->
  is_timed_out now st r = true <->
  timeout_seconds (manager st) * 1000000 < now - last_activity s.
Proof.
  intros Hr. unfold is_timed_out, timeout_delta. rewrite Hr.
  by rewrite bool_decide_eq_true.
Qed.

(** A creation that has passed the capacity check does not overshoot the
    maximum when it completes at once. *)
Lemma create_session_within_max env cid command use_pexpect st :
  len_sessions st <= max_sessions (manager st) ->
  len_sessions (create_session env cid command use_pexpect st).2
    <= max_sessions (manager (create_session env cid command use_pexpect st).2).
Proof.
  unfold create_session, create_session_begin, create_session_resume.
  intros Hle. case_bool_decide as Hcap; [done|].
  destruct (Pty.containers_get (docker env) cid); [done|]. simpl.
  destruct (Pty.connect (docker env) cid command); [|done]. simpl.
  unfold len_sessions in *. simpl.
  pose proof (map_size_insert (uuid4 env) (fresh (dom (heap st)))
                (sessions (manager st))) as Hsz.
  destruct (sessions (manager st) !! uuid4 env); simpl in Hsz; lia.
Qed.

(** C4.  With the session count at or above the maximum,
    [create_session] raises the capacity error and the state, with its
    dictionary and the count of its entries, is as before; under the
    event loop the call ends before its [await] and leaves no creation
    pending. *)
Theorem create_session_at_capacity :
  forall env cid command use_pexpect st,
    max_sessions (manager st) <= len_sessions st ->
    create_session env cid command use_pexpect st
      = (Raised (RuntimeError (max_sessions (manager st))), st) /\
    forall waiting,
      Async.run_event {| Async.state := st; Async.awaiting := waiting |}
                      (Async.CreateBegin env cid command use_pexpect)
      = {| Async.state := st; Async.awaiting := waiting |}.
Proof.
  intros env cid command use_pexpect st Hfull.
  unfold create_session, Async.run_event, create_session_begin. simpl.
  by rewrite bool_decide_true.
Qed.

Lemma create_session_at_capacity_witness :
  create_session (Fixtures.env_at Fixtures.docker_up "id-2" 7) "box" None
                 false Fixtures.one_session
  = (Raised (RuntimeError 1), Fixtures.one_session).
Proof.
  destruct (create_session_at_capacity
              (Fixtures.env_at Fixtures.docker_up "id-2" 7) "box" None false
              Fixtures.one_session) as [Hraised _].
  - vm_compute. discriminate.
  - exact Hraised.
Defined.

(** C6.  [close_session] answers [False] and changes nothing for an id
    that is not registered; for a registered id it closes the session
    object, deletes the entry and answers [True], after which the id is
    not found and a second [close_session] answers [False]. *)
Theorem close_session_idempotent :
  forall sid st,
    (sessions (manager st) !! sid = None ->
     close_session sid st = (false, st)) /\
    (forall r s,
        sessions (manager st) !! sid = Some r -> heap st !! r = Some s ->
        exists st',
          close_session sid st = (true, st') /\
          heap st' !! r = Some (close s) /\ closed_object (close s) /\
          sessions (manager st') = delete sid (sessions (manager st)) /\
          get_session sid st' = None /\
          close_session sid st' = (false, st')).
Proof.
  intros sid st. split; [apply close_session_None|].
  intros r s Hsid Hr. eexists. split; [by apply close_session_Some|].
  simpl. split; [by rewrite lookup_alter_eq, Hr|].
  split; [apply close_closed_object|]. split; [done|].
  unfold get_session. simpl. rewrite lookup_delete_eq. split; [done|].
  apply close_session_None. simpl. apply lookup_delete_eq.
Qed.

Lemma close_session_idempotent_witness :
  exists st',
    close_session "id-1" Fixtures.one_session = (true, st') /\
    size (sessions (manager st')) = O /\
    close_session "id-1" st' = (false, st').
Proof.
  destruct (heap Fixtures.one_session !! O) as [s|] eqn:Hs;
    [|vm_compute in Hs; discriminate].
  destruct (proj2 (close_session_idempotent "id-1" Fixtures.one_session) O s)
    as (st' & Hfirst & _ & _ & Hdel & _ & Hsecond);
    [vm_compute; reflexivity|exact Hs|].
  exists st'. split; [exact Hfirst|]. split; [|exact Hsecond].
  rewrite Hdel. vm_compute. reflexivity.
Defined.

(** C7.  A cleanup pass at time [now] closes and unregisters every
    registered session whose last activity is more than
    [timeout_seconds] before [now], and leaves every other registered
    session registered and its object untouched; so does a session on
    which [send_input] ran within the window. *)
Theorem cleanup_pass_reaps_exactly_the_idle :
  forall now st sid r s,
    sessions (manager st) !! sid = Some r -> heap st !! r = Some s ->
    (timeout_seconds (manager st) * 1000000 < now - last_activity s ->
     sessions (manager (_cleanup_loop_pass now st)) !! sid = None /\
     get_session sid (_cleanup_loop_pass now st) = None /\
     exists s', heap (_cleanup_loop_pass now st) !! r = Some s' /\ closed_object s')
    /\
    (now - last_activity s <= timeout_seconds (manager st) * 1000000 ->
     sessions (manager (_cleanup_loop_pass now st)) !! sid = Some r /\
     heap (_cleanup_loop_pass now st) !! r = Some s /\
     get_session sid (_cleanup_loop_pass now st) = Some s)
    /\
    (forall t data s0,
        s = send_input t data s0 ->
        now - t <= timeout_seconds (manager st) * 1000000 ->
        get_session sid (_cleanup_loop_pass now st) = Some s).
Proof.
  intros now st sid r s Hsid Hr.
  assert (now - last_activity s <= timeout_seconds (manager st) * 1000000 ->
          sessions (manager (_cleanup_loop_pass now st)) !! sid = Some r /\
          heap (_cleanup_loop_pass now st) !! r = Some s /\
          get_session sid (_cleanup_loop_pass now st) = Some s) as Hkeep.
  { intros Hrecent. unfold _cleanup_loop_pass, get_session.
    assert (sessions (manager (close_all (timed_out now st) st)) !! sid
            = Some r) as Hs'.
    { rewrite close_all_sessions, bool_decide_false; [done|].
      intros (r' & Hr' & Ht)%elem_of_timed_out.
      assert (r' = r) as -> by congruence.
      apply (is_timed_out_spec now st r s Hr) in Ht. lia. }
    assert (heap (close_all (timed_out now st) st) !! r = Some s) as Hh'.
    { rewrite close_all_heap_other; [done|].
      intros sid' (r' & Hr' & Ht)%elem_of_timed_out Heq.
      assert (r' = r) as -> by congruence.
      apply (is_timed_out_spec now st r s Hr) in Ht. lia. }
    rewrite Hs'. simpl. by rewrite Hh'. }
  split; [|split; [exact Hkeep|]].
  - intros Hidle.
    assert (sid ∈ timed_out now st) as Hin.
    { apply elem_of_timed_out. exists r. split; [done|].
      by apply (is_timed_out_spec now st r s Hr). }
    unfold _cleanup_loop_pass, get_session.
    rewrite close_all_sessions, bool_decide_true by done.
    split; [done|]. split; [done|].
    by apply (close_all_closes _ st sid r s).
  - intros t data s0 -> Hrecent. by apply Hkeep.
Qed.

Lemma cleanup_pass_reaps_exactly_the_idle_witness :
  get_session "old" (_cleanup_loop_pass (Pexpect.seconds 7000) Fixtures.old_and_new)
    = None /\
  sessions (manager (_cleanup_loop_pass (Pexpect.seconds 7000) Fixtures.old_and_new))
    !! "new"%string = Some 1%nat.
Proof.
  destruct (heap Fixtures.old_and_new !! O) as [s0|] eqn:Hold;
    [|vm_compute in Hold; discriminate].
  destruct (heap Fixtures.old_and_new !! 1%nat) as [s1|] eqn:Hnew;
    [|vm_compute in Hnew; discriminate].
  split.
  - destruct (cleanup_pass_reaps_exactly_the_idle (Pexpect.seconds 7000)
                Fixtures.old_and_new "old" O s0) as (Hidle & _ & _);
      [vm_compute; reflexivity|exact Hold|].
    apply Hidle.
    vm_compute in Hold. injection Hold as <-. vm_compute. reflexivity.
  - destruct (cleanup_pass_reaps_exactly_the_idle (Pexpect.seconds 7000)
                Fixtures.old_and_new "new" 1%nat s1) as (_ & Hrecent & _);
      [vm_compute; reflexivity|exact Hnew|].
    apply Hrecent.
    vm_compute in Hnew. injection Hnew as <-. vm_compute. discriminate.
Defined.

(** C10.  When opening the channel raises while the capacity check has
    passed (the container lookup of the handler's constructor, or the
    exec of [connect]), [create_session] raises that exception and the
    state is as before: an id that was not registered is still not
    found, and the listing is the same.  Under the event loop, a
    suspended creation whose [connect] raises leaves the state it is
    resumed in as it found it. *)
Theorem create_session_connect_failure :
  forall env cid command use_pexpect st e,
    len_sessions st < max_sessions (manager st) ->
    Pty.containers_get (docker env) cid = Some e \/
    (Pty.containers_get (docker env) cid = None /\
     Pty.exec_run (docker env) cid (Pty.exec_command command) = Raised e) ->
    create_session env cid command use_pexpect st = (Raised e, st) /\
    (sessions (manager st) !! uuid4 env = None ->
     get_session (uuid4 env)
       (create_session env cid command use_pexpect st).2 = None) /\
    list_sessions (create_session env cid command use_pexpect st).2
      = list_sessions st /\
    (forall later,
        Pty.containers_get (docker env) cid = None ->
        create_session_resume
          {| pc_env := env; pc_container_id := cid; pc_command := command;
             pc_use_pexpect := use_pexpect |} later
        = (Raised e, later)).
Proof.
  intros env cid command use_pexpect st e Hroom Hfail.
  assert (create_session env cid command use_pexpect st = (Raised e, st))
    as Hcreate.
  { unfold create_session, create_session_begin, create_session_resume.
    rewrite bool_decide_false by lia.
    destruct Hfail as [->|[-> Hexec]]; [done|]. simpl.
    unfold Pty.connect. by rewrite Hexec. }
  rewrite Hcreate. simpl. split; [done|]. split.
  { intros Hfresh. unfold get_session. by rewrite Hfresh. }
  split; [done|].
  intros later Hget. destruct Hfail as [Hsome|[_ Hexec]]; [congruence|].
  unfold create_session_resume, Pty.connect. simpl. by rewrite Hexec.
Qed.

Lemma create_session_connect_failure_witness :
  create_session (Fixtures.env_at Fixtures.docker_refusing "id-9" 7) "box"
                 None false (init 5 3600)
  = (Raised (DockerError "exec refused"), init 5 3600).
Proof.
  destruct (create_session_connect_failure
              (Fixtures.env_at Fixtures.docker_refusing "id-9" 7) "box" None
              false (init 5 3600) (DockerError "exec refused"))
    as [Hraised _].
  - vm_compute. reflexivity.
  - right. split; reflexivity.
  - exact Hraised.
Defined.

End SessionsFacts.

(** ** The relay loop *)

Module RelayFacts.
Import Sessions Relay.

Lemma visible_Some r s l :
  r = Some (s, l) -> visible r = Some (s, delivered l).
Proof. by intros ->. Qed.

(** Whether callbacks raise changes neither the session a pass leaves
    nor the calls it makes. *)
Lemma notify_calm behave data : forall fuel i s lg lg0,
  delivered lg = delivered lg0 ->
  visible (notify fuel behave data i s lg)
  = visible (notify fuel (calm behave) data i s lg0).
Proof.
  induction fuel as [|fuel IH]; intros i s lg lg0 Hlog; [done|].
  cbn [notify]. destruct (_output_callbacks s !! i) as [c|].
  - apply IH. simpl. by rewrite Hlog.
  - simpl. by rewrite Hlog.
Qed.

Lemma read_output_turn_calm behave fuel s lg lg0 :
  delivered lg = delivered lg0 ->
  visible (read_output_turn fuel behave s lg)
  = visible (read_output_turn fuel (calm behave) s lg0).
Proof.
  intros Hlog. unfold read_output_turn.
  destruct (Pty.read (pty_handler s)) as [data pty].
  case_bool_decide; [simpl; by rewrite Hlog|]. by apply notify_calm.
Qed.

Lemma read_output_calm behave fuel : forall turns s lg lg0,
  delivered lg = delivered lg0 ->
  visible (_read_output turns fuel behave s lg)
  = visible (_read_output turns fuel (calm behave) s lg0).
Proof.
  induction turns as [|turns IH]; intros s lg lg0 Hlog; simpl.
  { by rewrite Hlog. }
  destruct (active s); [|simpl; by rewrite Hlog].
  pose proof (read_output_turn_calm behave fuel s lg lg0 Hlog) as Hturn.
  destruct (read_output_turn fuel behave s lg) as [[s1 l1]|],
           (read_output_turn fuel (calm behave) s lg0) as [[s2 l2]|];
    simpl in Hturn; try done.
  injection Hturn as -> Hl. by apply IH.
Qed.

(** A pass in which no callback of the list changes the subscriptions
    calls each subscriber once, in list order, and leaves the session as
    it was. *)
Lemma notify_quiet behave data s :
  (forall c, c ∈ _output_callbacks s -> ops (behave c data) = []) ->
  forall fuel i lg,
    (length (_output_callbacks s) - i < fuel)%nat ->
    exists lg',
      notify fuel behave data i s lg = Some (s, lg') /\
      delivered lg'
      = delivered lg ++ calls (drop i (_output_callbacks s)) data.
Proof.
  intros Hquiet. induction fuel as [|fuel IH]; intros i lg Hfuel; [lia|].
  cbn [notify]. destruct (_output_callbacks s !! i) as [c|] eqn:Hi.
  - rewrite (Hquiet c) by (by eapply list_elem_of_lookup_2).
    change (run_ops [] s) with s.
    apply lookup_lt_Some in Hi as Hlt.
    destruct (IH (S i) (record_call c data (raises (behave c data)) lg))
      as (lg' & -> & Hd); [lia|].
    exists lg'. split; [done|]. rewrite Hd. simpl.
    rewrite (drop_S _ _ _ Hi). unfold calls. simpl. by rewrite <- app_assoc.
  - exists lg. split; [done|].
    apply lookup_ge_None in Hi. rewrite drop_ge by done.
    unfold calls. simpl. by rewrite app_nil_r.
Qed.

Lemma run_ops_adds l : forall s,
  Forall is_add l ->
  exists added, _output_callbacks (run_ops l s) = _output_callbacks s ++ added.
Proof.
  induction l as [|op l IH]; intros s Hadds.
  - exists []. simpl. by rewrite app_nil_r.
  - apply Forall_cons in Hadds as [Hop Hl]. destruct op as [c|c]; [|done].
    destruct (IH (add_output_callback c s) Hl) as (added & Hadded).
    exists (c :: added). unfold run_ops in *. simpl. rewrite Hadded. simpl.
    by rewrite <- app_assoc.
Qed.

(** A pass in which callbacks only subscribe: the list only grows at its
    end, and the pass calls every subscriber of the list as it stands at
    the end of the pass, those present at the start first. *)
Lemma notify_adds behave data :
  (forall c, Forall is_add (ops (behave c data))) ->
  forall fuel i s lg s' lg',
    notify fuel behave data i s lg = Some (s', lg') ->
    exists added,
      _output_callbacks s' = _output_callbacks s ++ added /\
      delivered lg'
      = delivered lg ++ calls (drop i (_output_callbacks s ++ added)) data.
Proof.
  intros Hadds. induction fuel as [|fuel IH]; intros i s lg s' lg'; [done|].
  cbn [notify]. destruct (_output_callbacks s !! i) as [c|] eqn:Hi.
  - intros Hrun.
    destruct (run_ops_adds (ops (behave c data)) s (Hadds c)) as (a1 & Ha1).
    apply IH in Hrun as (a2 & Hcbs & Hd). rewrite Ha1 in Hcbs, Hd.
    exists (a1 ++ a2). rewrite app_assoc. split; [done|].
    rewrite Hd. simpl.
    assert (((_output_callbacks s ++ a1) ++ a2) !! i = Some c) as Hi'.
    { rewrite <- app_assoc. by apply lookup_app_l_Some. }
    rewrite (drop_S _ _ _ Hi'). unfold calls. simpl. by rewrite <- app_assoc.
  - intros [= <- <-]. exists []. rewrite !app_nil_r. split; [done|].
    apply lookup_ge_None in Hi. rewrite drop_ge by done.
    unfold calls. simpl. by rewrite app_nil_r.
Qed.

(** The relay loop over a session whose callbacks never change the
    subscriptions: every chunk the channel delivers goes to every
    subscriber, chunk after chunk, and the loop goes on. *)
Lemma read_output_quiet behave fuel : forall turns s lg,
  (forall c data, c ∈ _output_callbacks s -> ops (behave c data) = []) ->
  active s = true -> Pty._connected (pty_handler s) = true ->
  (length (_output_callbacks s) < fuel)%nat ->
  exists s' lg',
    _read_output turns fuel behave s lg = Some (s', lg') /\
    _output_callbacks s' = _output_callbacks s /\ active s' = true /\
    Pty.pending (Pty._socket (pty_handler s'))
    = drop turns (Pty.pending (Pty._socket (pty_handler s))) /\
    delivered lg'
    = delivered lg
      ++ (List.filter nonempty
            (take turns (Pty.pending (Pty._socket (pty_handler s))))
          ≫= calls (_output_callbacks s)).
Proof.
  induction turns as [|turns IH]; intros s lg Hquiet Hact Hconn Hfuel.
  { exists s, lg. simpl. by rewrite app_nil_r. }
  cbn [_read_output]. rewrite Hact. unfold read_output_turn, Pty.read.
  rewrite Hconn.
  destruct (Pty.pending (Pty._socket (pty_handler s))) as [|data rest] eqn:Hp.
  - rewrite bool_decide_true by done.
    destruct (IH (set_pty (pty_handler s) s) lg) as (s' & lg' & -> & Hrest);
      [done..|].
    exists s', lg'. split; [done|]. simpl in Hrest. rewrite Hp in Hrest.
    by rewrite take_nil, drop_nil in *.
  - set (s1 := set_pty _ s). case_bool_decide as Hdata.
    + destruct (IH s1 lg) as (s' & lg' & -> & Hrest); [done..|].
      exists s', lg'. split; [done|]. subst data. exact Hrest.
    + destruct (notify_quiet behave data s1 (fun c => Hquiet c data) fuel O lg)
        as (lg1 & -> & Hd1); [simpl; lia|].
      destruct (IH s1 lg1) as (s' & lg' & -> & Hcb & Hact' & Hpend & Hd);
        [done..|].
      exists s', lg'. split; [done|]. split; [done|]. split; [done|].
      split; [done|]. rewrite Hd, Hd1. simpl.
      unfold nonempty at 2. rewrite bool_decide_false by done. simpl.
      by rewrite <- app_assoc.
Qed.

Lemma received_by_calls c1 c2 (chunks : list string) :
  c1 <> c2 ->
  snd <$> List.filter (fun p => bool_decide (p.1 = c2))
                      (chunks ≫= calls [c1; c2])
  = chunks.
Proof.
  intros Hne. induction chunks as [|d chunks IH]; [done|].
  cbn. rewrite (bool_decide_false (c1 = c2)) by done.
  rewrite (bool_decide_true (c2 = c2)) by done. cbn. by rewrite IH.
Qed.

(** C8.  A callback that raises is caught: the session a pass or a run
    of the loop leaves (its subscriber list, its active flag) and the
    calls made are those that would be seen had nobody raised.  A pass
    whose callbacks leave the subscriptions alone calls every subscriber
    with the chunk, in order, whoever raises, and keeps the list.  With
    two subscribers of which the first raises on every call, the second
    is called with every chunk the channel delivers, in the order of
    delivery, and the loop is still running with both subscribed. *)
Theorem raising_subscriber_is_isolated :
  (forall behave data fuel s lg,
      visible (notify fuel behave data 0 s lg)
      = visible (notify fuel (calm behave) data 0 s lg)) /\
  (forall behave turns fuel s lg,
      visible (_read_output turns fuel behave s lg)
      = visible (_read_output turns fuel (calm behave) s lg)) /\
  (forall behave data s lg fuel,
      (forall c, c ∈ _output_callbacks s -> ops (behave c data) = []) ->
      (length (_output_callbacks s) < fuel)%nat ->
      exists lg',
        notify fuel behave data 0 s lg = Some (s, lg') /\
        delivered lg' = delivered lg ++ calls (_output_callbacks s) data) /\
  (forall behave c1 c2 turns fuel s,
      c1 <> c2 ->
      _output_callbacks s = [c1; c2] ->
      active s = true -> Pty._connected (pty_handler s) = true ->
      (forall data, behave c1 data = {| ops := []; raises := true |}) ->
      (forall data, ops (behave c2 data) = []) ->
      (length (Pty.pending (Pty._socket (pty_handler s))) <= turns)%nat ->
      (2 < fuel)%nat ->
      exists s' lg',
        _read_output turns fuel behave s empty_log = Some (s', lg') /\
        received_by c2 lg'
        = List.filter nonempty (Pty.pending (Pty._socket (pty_handler s))) /\
        _output_callbacks s' = [c1; c2] /\ active s' = true).
Proof.
  split; [|split; [|split]].
  - intros. by apply notify_calm.
  - intros. by apply read_output_calm.
  - intros behave data s lg fuel Hquiet Hfuel.
    destruct (notify_quiet behave data s Hquiet fuel O lg) as (lg' & H1 & H2);
      [lia|].
    exists lg'. by rewrite drop_0 in H2.
  - intros behave c1 c2 turns fuel s Hne Hcbs Hact Hconn Hthrow Hquiet Hturns Hfuel.
    destruct (read_output_quiet behave fuel turns s empty_log)
      as (s' & lg' & Hrun & Hcbs' & Hact' & _ & Hd); [|done|done| |].
    + rewrite Hcbs. intros c data [->|[->|[]%elem_of_nil]%elem_of_cons]%elem_of_cons.
      * by rewrite Hthrow.
      * apply Hquiet.
    + rewrite Hcbs. simpl. lia.
    + exists s', lg'. split; [done|]. rewrite Hcbs' , Hcbs. split; [|done].
      unfold received_by. rewrite Hd, Hcbs. simpl.
      rewrite take_ge by done. by apply received_by_calls.
Qed.

Lemma raising_subscriber_is_isolated_witness :
  exists s' lg',
    _read_output 3 3 Fixtures.first_throws
      (Fixtures.session_with [1; 2]%nat ["a"; EmptyString; "b"]%string)
      empty_log = Some (s', lg') /\
    received_by 2%nat lg' = ["a"; "b"]%string /\
    _output_callbacks s' = [1; 2]%nat /\ active s' = true.
Proof.
  apply (proj2 (proj2 (proj2 raising_subscriber_is_isolated))
           Fixtures.first_throws 1%nat 2%nat 3%nat 3%nat
           (Fixtures.session_with [1; 2]%nat ["a"; EmptyString; "b"]%string));
    try reflexivity; try discriminate; simpl; lia.
Defined.

(** C9, as the code has it.  A pass takes no snapshot: it walks the
    session's own subscriber list.  If no callback subscribes or
    unsubscribes during the pass, the chunk goes exactly once to every
    subscriber present at the start, in order, and the list is as
    before.  If callbacks only subscribe during the pass, nobody present
    at the start is skipped: they are called first, in order, and then
    the chunk also goes to the subscribers added during the pass. *)
Theorem notify_walks_the_live_list :
  (forall behave data s lg fuel,
      (forall c, c ∈ _output_callbacks s -> ops (behave c data) = []) ->
      (length (_output_callbacks s) < fuel)%nat ->
      exists lg',
        notify fuel behave data 0 s lg = Some (s, lg') /\
        delivered lg' = delivered lg ++ calls (_output_callbacks s) data) /\
  (forall behave data fuel s lg s' lg',
      (forall c, Forall is_add (ops (behave c data))) ->
      notify fuel behave data 0 s lg = Some (s', lg') ->
      exists added,
        _output_callbacks s' = _output_callbacks s ++ added /\
        delivered lg'
        = delivered lg ++ calls (_output_callbacks s) data
                       ++ calls added data).
Proof.
  split.
  - intros behave data s lg fuel Hquiet Hfuel.
    destruct (notify_quiet behave data s Hquiet fuel O lg) as (lg' & H1 & H2);
      [lia|].
    exists lg'. by rewrite drop_0 in H2.
  - intros behave data fuel s lg s' lg' Hadds Hrun.
    destruct (notify_adds behave data Hadds _ _ _ _ _ _ Hrun)
      as (added & Hcbs & Hd).
    exists added. split; [done|]. rewrite Hd, drop_0. unfold calls.
    by rewrite fmap_app.
Qed.

Lemma notify_walks_the_live_list_witness :
  exists added,
    added = [3%nat] /\
    exists s' lg',
      notify 5 Fixtures.recruiter "x" 0
             (Fixtures.session_with [1; 2]%nat []) empty_log
      = Some (s', lg') /\
      delivered lg' = calls [1; 2]%nat "x" ++ calls added "x".
Proof.
  destruct (notify 5 Fixtures.recruiter "x" 0
              (Fixtures.session_with [1; 2]%nat []) empty_log)
    as [[s' lg']|] eqn:Hrun; [|vm_compute in Hrun; discriminate].
  destruct (proj2 notify_walks_the_live_list Fixtures.recruiter "x" 5%nat
              (Fixtures.session_with [1; 2]%nat []) empty_log s' lg')
    as (added & Hcbs & Hd).
  - intros c. unfold Fixtures.recruiter. simpl.
    case_bool_decide; repeat constructor.
  - exact Hrun.
  - exists added. vm_compute in Hrun. injection Hrun as <- <-.
    simpl in Hcbs. injection Hcbs as <-. split; [reflexivity|].
    eexists _, _. split; [reflexivity|]. exact Hd.
Defined.

(** C9 as stated fails.  A callback that unsubscribes itself makes the
    pass skip the next subscriber, which was present at the start; a
    callback that subscribes another one makes the pass deliver the
    chunk to the newcomer. *)
Lemma snapshot_delivery_counterexample :
  (exists s' lg',
      notify 5 Fixtures.one_shot "x" 0
             (Fixtures.session_with [1; 2]%nat []) empty_log
      = Some (s', lg') /\
      2%nat ∈ _output_callbacks (Fixtures.session_with [1; 2]%nat []) /\
      received_by 2%nat lg' = []) /\
  (exists s' lg',
      notify 5 Fixtures.recruiter "x" 0
             (Fixtures.session_with [1; 2]%nat []) empty_log
      = Some (s', lg') /\
      (3%nat ∉ _output_callbacks (Fixtures.session_with [1; 2]%nat [])) /\
      received_by 3%nat lg' = ["x"%string]).
Proof.
  split; eexists _, _; (split; [vm_compute; reflexivity|]); split;
    try reflexivity.
  - simpl. apply list_elem_of_further, list_elem_of_here.
  - simpl. intros H. apply list_elem_of_In in H. simpl in H.
    destruct H as [H|[H|[]]]; discriminate.
Qed.

End RelayFacts.

(** ** Creation under the event loop *)

Module AsyncFacts.
Import Sessions Async.

(** C5.  Two [create_session] calls on a manager of capacity 1 that both
    pass the capacity check before either of them returns from its
    [await]: both sessions are registered, and the dictionary holds two
    entries. *)
Theorem concurrent_creates_exceed_max :
  let e1 := Fixtures.env_at Fixtures.docker_up "id-1" 0 in
  let e2 := Fixtures.env_at Fixtures.docker_up "id-2" 0 in
  let sys := run [CreateBegin e1 "box" None false;
                  CreateBegin e2 "box" None false;
                  CreateResume 0; CreateResume 0] (start 1 3600) in
  reachable 1 3600 sys /\
  max_sessions (manager (state sys)) = 1 /\
  len_sessions (state sys) = 2 /\
  awaiting sys = [].
Proof.
  intros e1 e2 sys. split; [by eexists|]. vm_compute. done.
Qed.

End AsyncFacts.

(** * Further properties *)

(** ** The expect engine: deadlines, literals and commands *)

Module PexpectMore.
Import re Pexpect PyFacts PexpectFacts.

(** [find] answers with the leftmost offset: the needle starts at no
    earlier one. *)
Lemma find_leftmost needle : forall hay i,
  find needle hay = Some i ->
  forall j, (j < i)%nat -> String.prefix needle (str_drop j hay) = false.
Proof.
  induction hay as [|b hay IH]; intros i; cbn [find].
  - destruct (String.prefix needle EmptyString); [|done].
    intros [= <-] j Hj. lia.
  - destruct (String.prefix needle (String b hay)) eqn:Hp.
    + intros [= <-] j Hj. lia.
    + destruct (find needle hay) as [i'|] eqn:Hf; [|done].
      intros [= <-] [|j] Hj; [exact Hp|]. simpl. apply (IH i' eq_refl). lia.
Qed.

(** Without an answer, the needle starts nowhere. *)
Lemma find_None_nowhere needle : forall hay,
  find needle hay = None ->
  forall j, String.prefix needle (str_drop j hay) = false.
Proof.
  induction hay as [|b hay IH]; cbn [find].
  - destruct (String.prefix needle EmptyString) eqn:Hp; [done|].
    intros _ [|j]; exact Hp.
  - destruct (String.prefix needle (String b hay)) eqn:Hp; [done|].
    destruct (find needle hay) as [i'|] eqn:Hf; [done|].
    intros _ [|j]; [exact Hp|]. simpl. by apply IH.
Qed.

Lemma compile_patterns_exact (l : list string) :
  compile_patterns (Many ((fun p => PRe (compile_escape p)) <$> l))
  = compile_escape <$> l.
Proof.
  unfold compile_patterns. induction l as [|x l IH]; [done|].
  cbn in *. by f_equal.
Qed.

Lemma compile_patterns_strings (l : list string) :
  compile_patterns (Many (PStr <$> l)) = compile_escape <$> l.
Proof.
  unfold compile_patterns. induction l as [|x l IH]; [done|].
  cbn in *. by f_equal.
Qed.


Lemma accumulated_same k w0 w h0 h :
  incoming w0 = incoming w -> _buffer h0 = _buffer h ->
  accumulated k w0 h0 = accumulated k w h.
Proof. unfold accumulated. by intros -> ->. Qed.

Lemma accumulated_cleared k w0 w h0 :
  incoming w0 = incoming w -> _buffer h0 = EmptyString ->
  accumulated k w0 h0 = str_concat (take k (incoming w)).
Proof. unfold accumulated. by intros -> ->. Qed.

(** What [expect] leaves alone, whatever its answer: it writes nothing,
    and it takes its input from the front of the channel. *)
Lemma expect_loop_frame compiled start_time timeout :
  forall fuel w h r w' h',
    expect_loop fuel compiled start_time timeout w h = Some (r, w', h') ->
    written w' = written w /\
    exists k, (k <= fuel)%nat /\ incoming w' = drop k (incoming w).
Proof.
  induction fuel as [|fuel IH]; intros w h r w' h'; [done|].
  cbn [expect_loop]. destruct (time_time w) as [now w1] eqn:Ht.
  assert (w1 = (time_time w).2) as -> by (by rewrite Ht).
  case_bool_decide as Hnow.
  - destruct (poll (time_time w).2 h) as [w2 h1] eqn:Hp.
    apply poll_spec in Hp as (_ & _ & Hinc & _ & _ & Hwr).
    destruct (check_patterns 0 compiled (_buffer h1)) as [[i m]|].
    + intros [= <- <- <-]. split; [done|]. exists 1%nat. split; [lia|done].
    + intros Hrun. apply IH in Hrun as (Hwr' & k & Hk & Hinc').
      split; [by rewrite Hwr'|]. exists (S k). split; [lia|].
      rewrite Hinc'. simpl. rewrite Hinc. by rewrite drop_drop.
  - intros [= <- <- <-]. split; [done|]. exists O. split; [lia|done].
Qed.


(** X1.  [expect_exact] on a list of strings is [expect] on the same
    strings.  When it answers [i], the [i]-th string stands in the
    accumulated buffer right before what the buffer is left with, it
    starts at no earlier offset, and no string before it in the list
    occurs anywhere in that buffer: the strings are matched as they are
    written. *)
Theorem expect_exact_matches_literally :
  (forall fuel l timeout w h,
      expect_exact fuel l timeout w h
      = expect fuel (Many (PStr <$> l)) timeout w h) /\
  (forall fuel l timeout w h i w' h',
      expect_exact fuel l timeout w h = Some (Returned i, w', h') ->
      exists k lit before,
        l !! i = Some lit /\
        accumulated k w h = before +:+ lit +:+ _buffer h' /\
        (forall j, (j < String.length before)%nat ->
                   String.prefix lit (str_drop j (accumulated k w h)) = false) /\
        (forall j' lit' j, (j' < i)%nat -> l !! j' = Some lit' ->
                   String.prefix lit' (str_drop j (accumulated k w h)) = false)).
Proof.
  split.
  - intros. unfold expect_exact, expect.
    change (map (fun p => PRe (compile_escape p)) l)
      with ((fun p => PRe (compile_escape p)) <$> l).
    by rewrite compile_patterns_exact, compile_patterns_strings.
  - intros fuel l timeout w h i w' h' Hrun. unfold expect_exact, expect in Hrun.
    change (map (fun p => PRe (compile_escape p)) l)
      with ((fun p => PRe (compile_escape p)) <$> l) in Hrun.
    rewrite compile_patterns_exact in Hrun.
    apply expect_loop_returned in Hrun
      as (k & p & m & _ & Hp & Hs & Hbefore & _ & Hbuf & _).
    rewrite list_lookup_fmap in Hp.
    destruct (l !! i) as [lit|] eqn:Hlit; [|done]. injection Hp as <-.
    match type of Hs with context [accumulated k ?w0 ?h0] =>
      rewrite (accumulated_same k w0 w h0 h eq_refl eq_refl) in *
    end.
    pose proof Hs as Hfind. cbn [search compile_escape] in Hfind.
    destruct (find lit (accumulated k w h)) as [off|] eqn:Hoff; [|done].
    apply compile_escape_search in Hs as (_ & before & Hlen & Heq).
    injection Hfind as <-. simpl in *.
    exists k, lit, before. split; [done|]. split; [by rewrite Hbuf|].
    split.
    + intros j Hj. apply (find_leftmost lit _ off Hoff). lia.
    + intros j' lit' j Hj' Hlit'.
      specialize (Hbefore j' (compile_escape lit') Hj').
      rewrite list_lookup_fmap, Hlit' in Hbefore.
      specialize (Hbefore eq_refl). simpl in Hbefore.
      destruct (find lit' (accumulated k w h)) eqn:Hnone; [done|].
      by apply find_None_nowhere.
Qed.

Lemma expect_exact_matches_literally_witness :
  exists k lit before,
    ["x.y"; "ab"]%string !! 1%nat = Some lit /\
    accumulated k (Samples.world_with ["xzy ab!"%string])
                (Samples.handler_with EmptyString)
    = (before +:+ lit +:+ "!")%string.
Proof.
  destruct (proj2 expect_exact_matches_literally 3%nat ["x.y"; "ab"]%string
              (seconds 30) (Samples.world_with ["xzy ab!"%string])
              (Samples.handler_with EmptyString) 1%nat
              {| clock := Fixtures.tick_clock; ticks := 2; incoming := [];
                 written := []; slept := O |}
              (Samples.handler_with "!") eq_refl)
    as (k & lit & before & Hlit & Hacc & _).
  exists k, lit, before. split; [exact Hlit|exact Hacc].
Defined.

(** X2.  With a timeout of zero or less and a clock that does not run
    backwards, [expect] raises [TimeoutError] before its first read: the
    buffer, the channel and the handler are as before, even when the
    buffer already holds a match. *)
Theorem expect_nonpositive_timeout_never_polls :
  forall fuel pattern timeout w h,
    timeout <= 0 ->
    clock w (ticks w) <= clock w (S (ticks w)) ->
    (0 < fuel)%nat ->
    exists w',
      expect fuel pattern timeout w h
        = Some (Raised (TimeoutError timeout), w', h) /\
      incoming w' = incoming w /\ written w' = written w /\
      slept w' = slept w.
Proof.
  intros fuel pattern timeout w h Htimeout Hclock Hfuel.
  destruct fuel as [|fuel]; [lia|]. unfold expect.
  cbn [expect_loop time_time fst snd ticks clock].
  rewrite bool_decide_false by lia. by eexists.
Qed.

Lemma expect_nonpositive_timeout_never_polls_witness :
  exists w',
    expect 1 (One (PStr "a")) 0 (Samples.world_with ["a"%string])
           (Samples.handler_with "a")
      = Some (Raised (TimeoutError 0), w', Samples.handler_with "a") /\
    incoming w' = ["a"%string].
Proof.
  destruct (expect_nonpositive_timeout_never_polls 1%nat (One (PStr "a")) 0
              (Samples.world_with ["a"%string]) (Samples.handler_with "a"))
    as (w' & Hrun & Hinc & _); [lia|vm_compute; discriminate|lia|].
  exists w'. split; [exact Hrun|exact Hinc].
Defined.




Lemma send_command_written fuel command expect_prompt prompt w h r w' h' :
  send_command fuel command expect_prompt prompt w h = Some (r, w', h') ->
  written w' = written w ++ [(command +:+ newline)%string].
Proof.
  unfold send_command.
  destruct expect_prompt; [|by intros [= <- <- <-]].
  destruct (expect _ _ _ _ _) as [[[r0 w2] h2]|] eqn:He; [|done].
  unfold expect in He. apply expect_loop_frame in He as [Hwr _].
  simpl in Hwr.
  destruct r0; intros [= <- <- <-]; exact Hwr.
Qed.


(** X4.  [send_command] writes the command and a newline to the channel
    exactly once, whether it returns or raises, and writes nothing else;
    without waiting for the prompt it reads nothing and returns the empty
    string. *)
Theorem send_command_writes_once :
  (forall fuel command expect_prompt prompt w h r w' h',
      send_command fuel command expect_prompt prompt w h = Some (r, w', h') ->
      written w' = written w ++ [(command +:+ newline)%string]) /\
  (forall fuel command prompt w h,
      exists w' h',
        send_command fuel command false prompt w h
          = Some (Returned EmptyString, w', h') /\
        incoming w' = incoming w /\ _buffer h' = EmptyString).
Proof.
  split.
  - intros fuel command expect_prompt prompt w h r w' h'.
    apply send_command_written.
  - intros. unfold send_command. by eexists _, _.
Qed.

Lemma send_command_writes_once_witness :
  exists r w' h',
    send_command 2 "ls" true "$" (Samples.world_with ["$"%string])
                 (Samples.handler_with "old") = Some (r, w', h') /\
    written w' = [("ls" +:+ newline)%string].
Proof.
  destruct (send_command 2 "ls" true "$" (Samples.world_with ["$"%string])
              (Samples.handler_with "old")) as [[[r w'] h']|] eqn:Hrun;
    [|vm_compute in Hrun; discriminate].
  exists r, w', h'. split; [reflexivity|].
  exact (proj1 send_command_writes_once 2%nat "ls"%string true "$"%string
           (Samples.world_with ["$"%string]) (Samples.handler_with "old")
           r w' h' Hrun).
Defined.



(** X6.  When [send_command] waits for the prompt and returns, what was
    read since the call is some text, the prompt, and the text returned;
    the prompt starts nowhere earlier in it.  The text before the prompt
    is in neither the result nor the buffer. *)
Theorem send_command_output_follows_prompt :
  forall fuel command prompt w h out w' h',
    send_command fuel command true prompt w h = Some (Returned out, w', h') ->
    exists k before,
      str_concat (take k (incoming w)) = (before +:+ prompt +:+ out)%string /\
      (forall j, (j < String.length before)%nat ->
         String.prefix prompt (str_drop j (str_concat (take k (incoming w))))
         = false) /\
      _buffer h' = out /\ incoming w' = drop k (incoming w).
Proof.
  intros fuel command prompt w h out w' h'. unfold send_command.
  destruct (expect fuel (One (PStr prompt)) (seconds 30) (sendline command w)
              (set_buffer EmptyString h)) as [[[[i|e] w2] h2]|] eqn:He; [|done..].
  intros [= <- <- <-]. unfold expect in He.
  apply expect_loop_returned in He
    as (k & p & m & _ & Hp & Hs & _ & _ & Hbuf & Hinc).
  destruct i as [|i]; [|done]. injection Hp as <-.
  match type of Hs with context [accumulated k ?w0 ?h0] =>
    rewrite (accumulated_cleared k w0 w h0 eq_refl eq_refl) in *
  end.
  pose proof Hs as Hfind. cbn [search compile_escape] in Hfind.
  destruct (find prompt (str_concat (take k (incoming w)))) as [off|] eqn:Hoff;
    [|done].
  apply compile_escape_search in Hs as (_ & before & Hlen & Heq).
  injection Hfind as <-. simpl in *.
  exists k, before. split; [by rewrite Hbuf|]. split; [|done].
  intros j Hj. apply (find_leftmost prompt _ off Hoff). lia.
Qed.

Lemma send_command_output_follows_prompt_witness :
  exists k before,
    str_concat (take k ["a.txt"; "$ "; "later"]%string)
    = (before +:+ "$" +:+ " ")%string.
Proof.
  destruct (send_command_output_follows_prompt 5%nat "ls"%string "$"%string
              (Samples.world_with ["a.txt"; "$ "; "later"]%string)
              (Samples.handler_with "old") " "%string
              {| clock := Fixtures.tick_clock; ticks := 3;
                 incoming := ["later"%string];
                 written := [("ls" +:+ newline)%string]; slept := 1 |}
              (Samples.handler_with " ") eq_refl)
    as (k & before & Heq & _).
  exists k, before. exact Heq.
Defined.

End PexpectMore.

(** ** The registry under sequences of operations *)

Module RegistryFacts.
Import Sessions Registry SessionsFacts.

Lemma consistent_init max timeout : consistent (init max timeout).
Proof. intros sid r Hsid. simpl in Hsid. by rewrite lookup_empty in Hsid. Qed.

Lemma connect_connected d cid command pty :
  Pty.connect d cid command = Returned pty -> Pty._connected pty = true.
Proof.
  unfold Pty.connect. destruct (Pty.exec_run _ _ _); [|done].
  by intros [= <-].
Qed.

Lemma consistent_create env cid command use_pexpect st :
  consistent st ->
  consistent (create_session env cid command use_pexpect st).2.
Proof.
  intros Hc. unfold create_session, create_session_begin, create_session_resume.
  case_bool_decide; [done|].
  destruct (Pty.containers_get (docker env) cid); [done|]. simpl.
  destruct (Pty.connect (docker env) cid command) as [pty|e] eqn:Hpty; [|done].
  simpl. intros sid r Hsid. unfold set_sessions in Hsid. simpl in Hsid. simpl.
  destruct (decide (sid = uuid4 env)) as [->|Hne].
  - rewrite lookup_insert_eq in Hsid. injection Hsid as <-.
    rewrite lookup_insert_eq. eexists. split; [done|].
    repeat split. simpl. by eapply connect_connected.
  - rewrite lookup_insert_ne in Hsid by done.
    destruct (Hc sid r Hsid) as (s & Hr & Hlive).
    exists s. split; [|done]. rewrite lookup_insert_ne; [done|].
    intros <-. apply (is_fresh (dom (heap st))).
    apply elem_of_dom. by eexists.
Qed.

Lemma consistent_refs_differ st sid1 sid2 r1 r2 :
  consistent st ->
  sessions (manager st) !! sid1 = Some r1 ->
  sessions (manager st) !! sid2 = Some r2 ->
  sid1 <> sid2 -> r1 <> r2.
Proof.
  intros Hc H1 H2 Hne <-.
  destruct (Hc _ _ H1) as (s1 & Hr1 & <- & _).
  destruct (Hc _ _ H2) as (s2 & Hr2 & <- & _).
  congruence.
Qed.

Lemma consistent_close sid0 st :
  consistent st -> consistent (close_session sid0 st).2.
Proof.
  intros Hc. unfold close_session.
  destruct (sessions (manager st) !! sid0) as [r0|] eqn:H0; [|done]. simpl.
  intros sid r Hsid. unfold set_sessions in Hsid. simpl in Hsid. simpl.
  apply lookup_delete_Some in Hsid as [Hne Hsid].
  destruct (Hc sid r Hsid) as (s & Hr & Hlive). exists s. split; [|done].
  rewrite lookup_alter_ne; [done|].
  by apply (consistent_refs_differ st sid0 sid).
Qed.

Lemma consistent_close_all ids : forall st,
  consistent st -> consistent (close_all ids st).
Proof.
  induction ids as [|sid ids IH]; intros st Hc; [done|].
  rewrite close_all_cons. by apply IH, consistent_close.
Qed.

Lemma consistent_on_session sid f st :
  (forall sid' s, live_under sid' s -> live_under sid' (f s)) ->
  consistent st -> consistent (on_session sid f st).
Proof.
  intros Hf Hc. unfold on_session.
  destruct (sessions (manager st) !! sid) as [r0|]; [|done].
  intros sid' r Hsid. simpl in *. destruct (Hc sid' r Hsid) as (s & Hr & Hlive).
  destruct (decide (r0 = r)) as [->|Hne].
  - exists (f s). rewrite lookup_alter_eq, Hr. split; [done|]. by apply Hf.
  - exists s. by rewrite lookup_alter_ne.
Qed.

Lemma send_input_live t data sid s :
  live_under sid s -> live_under sid (send_input t data s).
Proof.
  intros (Hid & Hact & Hconn). repeat split; [done..|]. simpl.
  unfold Pty.write. by rewrite Hconn.
Qed.

Lemma add_callback_live c sid s :
  live_under sid s -> live_under sid (add_output_callback c s).
Proof. by intros (Hid & Hact & Hconn). Qed.

Lemma remove_callback_live c sid s :
  live_under sid s -> live_under sid (remove_output_callback c s).
Proof.
  intros (Hid & Hact & Hconn). unfold remove_output_callback.
  by case_bool_decide.
Qed.

Lemma consistent_step st o : consistent st -> consistent (step st o).
Proof.
  intros Hc. destruct o; simpl.
  - by apply consistent_create.
  - by apply consistent_close.
  - by apply consistent_close_all.
  - by apply consistent_close_all.
  - apply consistent_on_session; [|done]. intros. by apply send_input_live.
  - apply consistent_on_session; [|done]. intros. by apply add_callback_live.
  - apply consistent_on_session; [|done]. intros. by apply remove_callback_live.
Qed.

Lemma consistent_run ops : forall st, consistent st -> consistent (run ops st).
Proof.
  induction ops as [|o ops IH]; intros st Hc; [done|].
  apply IH. by apply consistent_step.
Qed.

(** The count of entries never grows when sessions are closed, and the
    configured maximum is not touched. *)
Lemma close_session_len sid st :
  len_sessions (close_session sid st).2 <= len_sessions st /\
  max_sessions (manager (close_session sid st).2) = max_sessions (manager st).
Proof.
  unfold close_session, len_sessions.
  destruct (sessions (manager st) !! sid) as [r|] eqn:Hs; simpl; [|lia].
  rewrite map_size_delete, Hs. simpl. lia.
Qed.

Lemma close_all_len ids : forall st,
  len_sessions (close_all ids st) <= len_sessions st /\
  max_sessions (manager (close_all ids st)) = max_sessions (manager st).
Proof.
  induction ids as [|sid ids IH]; intros st; [done|].
  rewrite close_all_cons.
  destruct (IH (close_session sid st).2) as [H1 H2].
  destruct (close_session_len sid st) as [H3 H4]. lia.
Qed.

Lemma create_session_max env cid command use_pexpect st :
  max_sessions (manager (create_session env cid command use_pexpect st).2)
  = max_sessions (manager st).
Proof.
  unfold create_session, create_session_begin, create_session_resume.
  case_bool_decide; [done|].
  destruct (Pty.containers_get (docker env) cid); [done|]. simpl.
  by destruct (Pty.connect (docker env) cid command).
Qed.

Lemma on_session_manager sid f st : manager (on_session sid f st) = manager st.
Proof. unfold on_session. by destruct (sessions (manager st) !! sid). Qed.

Lemma step_within_max st o :
  len_sessions st <= max_sessions (manager st) ->
  len_sessions (step st o) <= max_sessions (manager (step st o)) /\
  max_sessions (manager (step st o)) = max_sessions (manager st).
Proof.
  intros Hle. destruct o; simpl.
  - split; [by apply create_session_within_max|apply create_session_max].
  - destruct (close_session_len sid st). lia.
  - unfold _cleanup_loop_pass. destruct (close_all_len (timed_out now st) st). lia.
  - unfold cleanup.
    destruct (close_all_len ((map_to_list (sessions (manager st))).*1) st). lia.
  - unfold len_sessions. by rewrite on_session_manager.
  - unfold len_sessions. by rewrite on_session_manager.
  - unfold len_sessions. by rewrite on_session_manager.
Qed.

Lemma run_within_max ops : forall st,
  len_sessions st <= max_sessions (manager st) ->
  len_sessions (run ops st) <= max_sessions (manager (run ops st)) /\
  max_sessions (manager (run ops st)) = max_sessions (manager st).
Proof.
  induction ops as [|o ops IH]; intros st Hle; [done|].
  destruct (step_within_max st o Hle) as [H1 H2].
  destruct (IH (step st o) H1) as [H3 H4].
  change (run (o :: ops) st) with (run ops (step st o)). split; [done|lia].
Qed.

Lemma get_session_Some sid st r s :
  sessions (manager st) !! sid = Some r -> heap st !! r = Some s ->
  get_session sid st = Some s.
Proof. intros Hs Hr. unfold get_session. rewrite Hs. simpl. exact Hr. Qed.

(** X7.  Whatever calls were made on a manager, one after the other
    (creations, closes, cleanup passes, inputs, subscriptions): every
    registered id leads to a session object that carries this id, is
    active and has its channel connected, and no two ids share an
    object. *)
Theorem registered_sessions_are_live :
  forall ops max timeout sid r,
    sessions (manager (run ops (init max timeout))) !! sid = Some r ->
    (exists s,
        get_session sid (run ops (init max timeout)) = Some s /\
        session_id s = sid /\ active s = true /\
        Pty._connected (pty_handler s) = true) /\
    (forall sid',
        sessions (manager (run ops (init max timeout))) !! sid' = Some r ->
        sid' = sid).
Proof.
  intros ops max timeout sid r Hsid.
  pose proof (consistent_run ops _ (consistent_init max timeout)) as Hc.
  destruct (Hc sid r Hsid) as (s & Hr & Hid & Hact & Hconn). split.
  - exists s. split; [by eapply get_session_Some|done].
  - intros sid' Hsid'. destruct (decide (sid' = sid)) as [|Hne]; [done|].
    by destruct (consistent_refs_differ _ sid' sid r r Hc Hsid' Hsid Hne).
Qed.

Lemma registered_sessions_are_live_witness :
  exists s,
    get_session "s2" (run Samples.busy_day (init 2 3600)) = Some s /\
    active s = true.
Proof.
  destruct (registered_sessions_are_live Samples.busy_day 2 3600 "s2" 1%nat)
    as [(s & Hget & _ & Hact & _) _]; [vm_compute; reflexivity|].
  exists s. split; [exact Hget|exact Hact].
Defined.

(** X8.  When calls do not overlap, the count of registered sessions
    never exceeds the maximum the manager was built with, and the maximum
    stays what it was. *)
Theorem sequential_operations_respect_max :
  forall ops max timeout,
    0 <= max ->
    len_sessions (run ops (init max timeout)) <= max /\
    max_sessions (manager (run ops (init max timeout))) = max.
Proof.
  intros ops max timeout Hmax.
  destruct (run_within_max ops (init max timeout)) as [H1 H2].
  - unfold len_sessions. simpl. rewrite map_size_empty. simpl. lia.
  - simpl in H2. rewrite H2 in H1. done.
Qed.

Lemma sequential_operations_respect_max_witness :
  len_sessions (run Samples.busy_day (init 2 3600)) <= 2.
Proof.
  destruct (sequential_operations_respect_max Samples.busy_day 2 3600)
    as [Hle _]; [lia|exact Hle].
Defined.

(** X9.  A creation that finds room, its container and its exec: the id
    drawn is returned and leads to a new active session with no
    subscribers, stamped with the time of creation; every other id leads
    to what it led to before; and if the id was not in use the count
    grows by one. *)
Theorem create_session_registers :
  forall env cid command use_pexpect st sock,
    consistent st ->
    len_sessions st < max_sessions (manager st) ->
    Pty.containers_get (docker env) cid = None ->
    Pty.exec_run (docker env) cid (Pty.exec_command command) = Returned sock ->
    exists st',
      create_session env cid command use_pexpect st
        = (Returned (uuid4 env), st') /\
      get_session (uuid4 env) st'
        = Some {| session_id := uuid4 env; container_id := cid;
                  pty_handler := {| Pty.container_id := cid;
                                    Pty._connected := true;
                                    Pty._socket := sock |};
                  pexpect_handler :=
                    if use_pexpect
                    then Some {| Pexpect._buffer := EmptyString;
                                 Pexpect._patterns := [] |}
                    else None;
                  created_at := utcnow_created env;
                  last_activity := utcnow_activity env;
                  active := true; _output_callbacks := [] |} /\
      (forall sid, sid <> uuid4 env ->
                   get_session sid st' = get_session sid st) /\
      (sessions (manager st) !! uuid4 env = None ->
       len_sessions st' = len_sessions st + 1).
Proof.
  intros env cid command use_pexpect st sock Hc Hroom Hget Hexec.
  unfold create_session, create_session_begin, create_session_resume.
  rewrite bool_decide_false by lia. rewrite Hget. simpl.
  unfold Pty.connect. rewrite Hexec. eexists. split; [done|].
  unfold get_session, len_sessions, set_sessions. simpl.
  split; [|split].
  - rewrite lookup_insert_eq. simpl. by rewrite lookup_insert_eq.
  - intros sid Hne. rewrite lookup_insert_ne by done.
    destruct (sessions (manager st) !! sid) as [r|] eqn:Hsid; [|done]. simpl.
    destruct (Hc sid r Hsid) as (s & Hr & _).
    rewrite lookup_insert_ne; [done|].
    intros <-. apply (is_fresh (dom (heap st))).
    apply elem_of_dom. by eexists.
  - intros Hfresh. rewrite map_size_insert_None by done. lia.
Qed.

Lemma create_session_registers_witness :
  exists st',
    create_session (Fixtures.env_at Fixtures.docker_up "s9" 7) "box" None true
                   (run Samples.busy_day (init 3 3600))
    = (Returned "s9"%string, st') /\
    len_sessions st' = 3.
Proof.
  destruct (create_session_registers
              (Fixtures.env_at Fixtures.docker_up "s9" 7) "box" None true
              (run Samples.busy_day (init 3 3600)) Fixtures.fresh_socket)
    as (st' & Hrun & _ & _ & Hlen).
  - apply consistent_run, consistent_init.
  - vm_compute. reflexivity.
  - reflexivity.
  - reflexivity.
  - exists st'. split; [exact Hrun|]. rewrite Hlen; [|vm_compute; reflexivity].
    vm_compute. reflexivity.
Defined.

(** X10.  Closing one registered session takes exactly one entry out of
    the dictionary and leaves every other id leading to the same,
    untouched, session. *)
Theorem close_session_leaves_others :
  forall sid st r,
    consistent st ->
    sessions (manager st) !! sid = Some r ->
    len_sessions (close_session sid st).2 = len_sessions st - 1 /\
    forall sid', sid' <> sid ->
      get_session sid' (close_session sid st).2 = get_session sid' st.
Proof.
  intros sid st r Hc Hsid. rewrite (close_session_Some _ _ _ Hsid).
  unfold len_sessions, get_session, set_sessions. simpl. split.
  - rewrite map_size_delete, Hsid. simpl.
    assert (size (sessions (manager st)) <> O) as Hpos.
    { intros Hz. apply map_size_empty_inv in Hz. rewrite Hz in Hsid.
      by rewrite lookup_empty in Hsid. }
    lia.
  - intros sid' Hne. rewrite lookup_delete_ne by done.
    destruct (sessions (manager st) !! sid') as [r'|] eqn:Hsid'; [|done].
    simpl. apply lookup_alter_ne.
    by apply (consistent_refs_differ st sid sid').
Qed.

Lemma close_session_leaves_others_witness :
  len_sessions (close_session "s2" (run Samples.busy_day (init 3 3600))).2 = 1 /\
  get_session "s3" (close_session "s2" (run Samples.busy_day (init 3 3600))).2
  = get_session "s3" (run Samples.busy_day (init 3 3600)).
Proof.
  destruct (close_session_leaves_others "s2"
              (run Samples.busy_day (init 3 3600)) 1%nat) as [Hlen Hothers].
  - apply consistent_run, consistent_init.
  - vm_compute. reflexivity.
  - split; [rewrite Hlen; vm_compute; reflexivity|].
    apply Hothers. discriminate.
Defined.

(** X11.  [cleanup] empties the dictionary, so that no id is found and
    nothing is listed any more, and closes the object of every session
    that was registered. *)
Theorem cleanup_closes_everything :
  forall st,
    sessions (manager (cleanup st)) = ∅ /\
    list_sessions (cleanup st) = [] /\
    (forall sid, get_session sid (cleanup st) = None) /\
    (forall sid r s,
        sessions (manager st) !! sid = Some r -> heap st !! r = Some s ->
        exists s', heap (cleanup st) !! r = Some s' /\ closed_object s').
Proof.
  intros st.
  assert (sessions (manager (cleanup st)) = ∅) as Hempty.
  { apply map_eq. intros sid. unfold cleanup.
    rewrite close_all_sessions, lookup_empty. case_bool_decide as Hin; [done|].
    destruct (sessions (manager st) !! sid) as [r|] eqn:Hsid; [|done].
    exfalso. apply Hin. apply list_elem_of_fmap. exists (sid, r).
    split; [done|]. by apply elem_of_map_to_list. }
  split; [done|]. split; [|split].
  - unfold list_sessions. by rewrite Hempty, map_to_list_empty.
  - intros sid. unfold get_session. by rewrite Hempty, lookup_empty.
  - intros sid r s Hsid Hr. unfold cleanup.
    apply (close_all_closes _ st sid r s); [|done..].
    apply list_elem_of_fmap. exists (sid, r).
    split; [done|]. by apply elem_of_map_to_list.
Qed.

Lemma cleanup_closes_everything_witness :
  exists s',
    heap (cleanup Fixtures.old_and_new) !! 1%nat = Some s' /\ active s' = false.
Proof.
  destruct (heap Fixtures.old_and_new !! 1%nat) as [s|] eqn:Hs;
    [|vm_compute in Hs; discriminate].
  destruct (proj2 (proj2 (proj2 (cleanup_closes_everything Fixtures.old_and_new)))
              "new"%string 1%nat s) as (s' & Hs' & Hclosed & _);
    [vm_compute; reflexivity|exact Hs|].
  exists s'. split; [exact Hs'|exact Hclosed].
Defined.

Lemma list_sessions_ids st (l : list (string * ref)) :
  consistent st ->
  (forall kv, kv ∈ l -> sessions (manager st) !! kv.1 = Some kv.2) ->
  d_session_id <$> omap (fun kv => describe <$> heap st !! kv.2) l = l.*1 /\
  Forall (fun d => d_active d = true)
         (omap (fun kv => describe <$> heap st !! kv.2) l).
Proof.
  intros Hc. induction l as [|[sid r] l IH]; intros Hl; [done|].
  destruct (Hc sid r) as (s & Hr & Hid & Hact & _).
  { apply (Hl (sid, r)). apply list_elem_of_here. }
  destruct IH as [IH1 IH2].
  { intros kv Hkv. apply Hl. by apply list_elem_of_further. }
  cbn [omap list_omap]. simpl. rewrite Hr. simpl. split.
  - f_equal; [done|]. exact IH1.
  - constructor; [done|exact IH2].
Qed.

(** X12.  On a manager whose calls did not overlap, [list_sessions] shows
    each registered id once and no other id, and every descriptor it
    shows is that of an active session. *)
Theorem list_sessions_shows_registered :
  forall ops max timeout,
    let st := run ops (init max timeout) in
    NoDup (d_session_id <$> list_sessions st) /\
    (forall sid, sid ∈ d_session_id <$> list_sessions st <->
                 is_Some (sessions (manager st) !! sid)) /\
    Z.of_nat (length (list_sessions st)) = len_sessions st /\
    Forall (fun d => d_active d = true) (list_sessions st).
Proof.
  intros ops max timeout st.
  pose proof (consistent_run ops _ (consistent_init max timeout)) as Hc.
  fold st in Hc.
  destruct (list_sessions_ids st (map_to_list (sessions (manager st))) Hc)
    as [Hids Hact].
  { intros [sid r] Hkv. by apply elem_of_map_to_list. }
  fold (list_sessions st) in Hids, Hact. split; [|split; [|split]].
  - rewrite Hids. apply NoDup_fst_map_to_list.
  - intros sid. rewrite Hids, list_elem_of_fmap. split.
    + intros ([sid' r] & -> & Hkv). apply elem_of_map_to_list in Hkv. by eexists.
    + intros [r Hsid]. exists (sid, r). split; [done|].
      by apply elem_of_map_to_list.
  - unfold len_sessions. f_equal.
    rewrite <- (length_fmap d_session_id), Hids, length_fmap.
    apply length_map_to_list.
  - exact Hact.
Qed.

(** Closing sessions moves no activity stamp. *)
Lemma close_all_last_activity ids : forall st r s',
  heap (close_all ids st) !! r = Some s' ->
  exists s, heap st !! r = Some s /\ last_activity s' = last_activity s.
Proof.
  induction ids as [|sid0 ids IH]; intros st r s' Hr'; [by eauto|].
  rewrite close_all_cons in Hr'.
  apply IH in Hr' as (s1 & Hr1 & ->). unfold close_session in Hr1.
  destruct (sessions (manager st) !! sid0) as [r0|]; [|by eauto].
  simpl in Hr1. apply lookup_alter_Some in Hr1 as [(-> & s & Hr & ->)|[_ Hr]];
    by eauto.
Qed.

Lemma timed_out_nil_after_pass now st :
  timed_out now (_cleanup_loop_pass now st) = [].
Proof.
  destruct (timed_out now (_cleanup_loop_pass now st)) as [|sid l] eqn:Hl; [done|].
  exfalso.
  assert (sid ∈ timed_out now (_cleanup_loop_pass now st)) as Hin.
  { rewrite Hl. apply list_elem_of_here. }
  apply elem_of_timed_out in Hin as (r & Hsid & Ht).
  unfold _cleanup_loop_pass in Hsid, Ht.
  rewrite close_all_sessions in Hsid.
  case_bool_decide as Hnot; [done|]. apply Hnot.
  apply elem_of_timed_out. exists r. split; [done|].
  unfold is_timed_out, timeout_delta in *.
  destruct (close_all_config (timed_out now st) st) as [_ Hcfg].
  rewrite Hcfg in Ht.
  destruct (heap (close_all (timed_out now st) st) !! r) as [s'|] eqn:Hr';
    [|done].
  apply close_all_last_activity in Hr' as (s & -> & <-). done.
Qed.

(** X13.  A cleanup pass leaves nothing for a second pass at the same
    time: running it again changes nothing. *)
Theorem cleanup_pass_is_idempotent :
  forall now st,
    _cleanup_loop_pass now (_cleanup_loop_pass now st)
    = _cleanup_loop_pass now st.
Proof.
  intros now st. unfold _cleanup_loop_pass at 1.
  by rewrite timed_out_nil_after_pass.
Qed.

(** X14.  A closed session is inert: closing it again changes nothing,
    its relay loop makes no further turn (nothing is read, nothing is
    delivered), its channel answers every read with the empty string, and
    input sent to it is dropped, only the activity stamp moving. *)
Theorem closed_session_is_inert :
  forall s,
    close (close s) = close s /\
    (forall turns fuel behave lg,
        Relay._read_output turns fuel behave (close s) lg
        = Some (close s, lg)) /\
    Pty.read (pty_handler (close s)) = (EmptyString, pty_handler (close s)) /\
    (forall utcnow data,
        pty_handler (send_input utcnow data (close s)) = pty_handler (close s) /\
        last_activity (send_input utcnow data (close s)) = utcnow /\
        active (send_input utcnow data (close s)) = false).
Proof.
  intros s. split; [|split; [|split]].
  - unfold close. simpl. f_equal. by destruct (pexpect_handler s).
  - intros [|turns] fuel behave lg; done.
  - done.
  - done.
Qed.

Lemma subscriptions_app c l1 l2 :
  subscriptions c (l1 ++ l2) = (subscriptions c l1 + subscriptions c l2)%nat.
Proof. unfold subscriptions. by rewrite List.filter_app, length_app. Qed.

Lemma list_remove_absent c l : c ∉ l -> list_remove c l = l.
Proof.
  induction l as [|x l IH]; [done|]. intros Hnot. simpl.
  rewrite bool_decide_false by (intros ->; apply Hnot, list_elem_of_here).
  rewrite IH; [done|]. intros Hin. by apply Hnot, list_elem_of_further.
Qed.

Lemma subscriptions_remove c c' l :
  c ∈ l ->
  subscriptions c' (list_remove c l)
  = (subscriptions c' l - if bool_decide (c' = c) then 1 else 0)%nat.
Proof.
  unfold subscriptions. induction l as [|x l IH]; intros Hin.
  - by apply elem_of_nil in Hin.
  - simpl. destruct (decide (x = c)) as [->|Hne].
    + rewrite (bool_decide_true (c = c)) by done.
      destruct (decide (c = c')) as [->|Hne'].
      * rewrite !bool_decide_true by done. simpl. lia.
      * rewrite (bool_decide_false (c = c')) by done.
        rewrite (bool_decide_false (c' = c)) by done. lia.
    + rewrite (bool_decide_false (x = c)) by done. simpl.
      apply elem_of_cons in Hin as [Heq|Hin]; [congruence|].
      specialize (IH Hin). destruct (decide (x = c')) as [Hx|Hx].
      * rewrite (bool_decide_true (x = c')) by done. simpl. rewrite IH.
        rewrite (bool_decide_false (c' = c)) by congruence. lia.
      * rewrite (bool_decide_false (x = c')) by done. exact IH.
Qed.

Lemma subscriptions_absent c l : c ∉ l -> subscriptions c l = O.
Proof.
  unfold subscriptions. induction l as [|x l IH]; [done|]. intros Hnot. simpl.
  rewrite bool_decide_false by (intros ->; apply Hnot, list_elem_of_here).
  apply IH. intros Hin. by apply Hnot, list_elem_of_further.
Qed.

(** X15.  Subscriptions are counted, not deduplicated:
    [add_output_callback] adds one subscription of its callback,
    [remove_output_callback] takes one away if there is one, and neither
    touches the subscriptions of other callbacks; removing a callback that
    is not subscribed changes nothing, and removing it right after adding
    it gives back the session as it was. *)
Theorem callback_subscriptions_are_counted :
  forall c c' s,
    subscriptions c' (_output_callbacks (add_output_callback c s))
    = (subscriptions c' (_output_callbacks s)
       + if bool_decide (c' = c) then 1 else 0)%nat /\
    subscriptions c' (_output_callbacks (remove_output_callback c s))
    = (subscriptions c' (_output_callbacks s)
       - if bool_decide (c' = c) then 1 else 0)%nat /\
    (c ∉ _output_callbacks s ->
     remove_output_callback c s = s /\
     remove_output_callback c (add_output_callback c s) = s).
Proof.
  intros c c' s. split; [|split].
  - simpl. rewrite subscriptions_app. f_equal. unfold subscriptions. simpl.
    destruct (decide (c = c')) as [->|Hne].
    + by rewrite !bool_decide_true.
    + rewrite (bool_decide_false (c = c')) by done.
      by rewrite (bool_decide_false (c' = c)).
  - unfold remove_output_callback. case_bool_decide as Hin.
    + simpl. by apply subscriptions_remove.
    + case_bool_decide as Hc; [|lia]. subst c'.
      rewrite subscriptions_absent by done. done.
  - intros Hnot. split.
    + unfold remove_output_callback. by rewrite bool_decide_false.
    + unfold remove_output_callback, add_output_callback. simpl.
      rewrite bool_decide_true by (apply elem_of_app; right; apply list_elem_of_here).
      assert (list_remove c (_output_callbacks s ++ [c]) = _output_callbacks s)
        as ->; [|by destruct s].
      clear -Hnot. induction (_output_callbacks s) as [|x l IH]; simpl.
      * by rewrite bool_decide_true.
      * rewrite bool_decide_false
          by (intros ->; apply Hnot, list_elem_of_here).
        rewrite IH; [done|]. intros Hin. by apply Hnot, list_elem_of_further.
Qed.

Lemma callback_subscriptions_are_counted_witness :
  remove_output_callback 7%nat
    (add_output_callback 7%nat (Fixtures.session_with [1; 2]%nat []))
  = Fixtures.session_with [1; 2]%nat [].
Proof.
  destruct (callback_subscriptions_are_counted 7%nat 7%nat
              (Fixtures.session_with [1; 2]%nat [])) as (_ & _ & Hround).
  apply Hround. simpl. intros Hin. apply list_elem_of_In in Hin. simpl in Hin.
  destruct Hin as [H|[H|[]]]; discriminate.
Defined.

End RegistryFacts.

(** ** The relay loop: fan-out and termination of a pass *)

Module RelayMore.
Import Sessions Relay Registry RelayFacts.

Lemma received_calls c (cbs : list callback) (d : string) :
  snd <$> List.filter (fun p => bool_decide (p.1 = c)) (calls cbs d)
  = replicate (subscriptions c cbs) d.
Proof.
  unfold calls, subscriptions. induction cbs as [|x cbs IH]; [done|].
  cbn. destruct (bool_decide (x = c)); cbn; by rewrite IH.
Qed.

Lemma received_bind c (cbs : list callback) (chunks : list string) :
  snd <$> List.filter (fun p => bool_decide (p.1 = c)) (chunks ≫= calls cbs)
  = chunks ≫= fun d => replicate (subscriptions c cbs) d.
Proof.
  induction chunks as [|d chunks IH]; [done|].
  cbn. rewrite List.filter_app, fmap_app, received_calls. by rewrite IH.
Qed.

(** X16.  The relay loop over callbacks that leave the subscriptions
    alone, run until the channel is drained: every chunk that is not
    empty reaches each callback once per subscription of that callback, in
    the order of arrival; with no subscriber the chunks are read all the
    same and are lost. *)
Theorem every_subscription_gets_every_chunk :
  forall behave turns fuel s,
    (forall c data, c ∈ _output_callbacks s -> ops (behave c data) = []) ->
    active s = true -> Pty._connected (pty_handler s) = true ->
    (length (_output_callbacks s) < fuel)%nat ->
    (length (Pty.pending (Pty._socket (pty_handler s))) <= turns)%nat ->
    exists s' lg',
      _read_output turns fuel behave s empty_log = Some (s', lg') /\
      Pty.pending (Pty._socket (pty_handler s')) = [] /\
      (forall c,
          received_by c lg'
          = List.filter nonempty (Pty.pending (Pty._socket (pty_handler s)))
            ≫= fun d => replicate (subscriptions c (_output_callbacks s)) d) /\
      (_output_callbacks s = [] -> delivered lg' = []).
Proof.
  intros behave turns fuel s Hquiet Hact Hconn Hfuel Hturns.
  destruct (read_output_quiet behave fuel turns s empty_log Hquiet Hact Hconn Hfuel)
    as (s' & lg' & Hrun & _ & _ & Hpend & Hd).
  exists s', lg'. split; [done|]. rewrite take_ge in Hd by done.
  simpl in Hd. split; [|split].
  - rewrite Hpend. by apply drop_ge.
  - intros c. unfold received_by. rewrite Hd. apply received_bind.
  - intros Hnone. rewrite Hd, Hnone. clear.
    induction (List.filter _ _) as [|d l IH]; [done|]. exact IH.
Qed.

Lemma every_subscription_gets_every_chunk_witness :
  exists s' lg',
    _read_output 3 4 Fixtures.first_throws
      (Fixtures.session_with [2; 1; 2]%nat ["a"; EmptyString; "b"]%string)
      empty_log = Some (s', lg') /\
    received_by 2%nat lg' = ["a"; "a"; "b"; "b"]%string.
Proof.
  destruct (every_subscription_gets_every_chunk Fixtures.first_throws 3%nat
              4%nat
              (Fixtures.session_with [2; 1; 2]%nat
                 ["a"; EmptyString; "b"]%string))
    as (s' & lg' & Hrun & _ & Hrecv & _);
    [done|done|done|simpl; lia|simpl; lia|].
  exists s', lg'. split; [exact Hrun|]. rewrite Hrecv. reflexivity.
Defined.

Lemma list_remove_shrinks c l :
  (length (list_remove c l) <= length l)%nat /\
  forall x, x ∈ list_remove c l -> x ∈ l.
Proof.
  induction l as [|y l [IH1 IH2]]; [done|]. simpl. case_bool_decide.
  - split; [lia|]. intros x Hx. by apply list_elem_of_further.
  - simpl. split; [lia|]. intros x [->|Hx]%elem_of_cons.
    + apply list_elem_of_here.
    + by apply list_elem_of_further, IH2.
Qed.

Lemma run_ops_removes l : forall s,
  Forall is_remove l ->
  (length (_output_callbacks (run_ops l s)) <= length (_output_callbacks s))%nat /\
  forall x, x ∈ _output_callbacks (run_ops l s) -> x ∈ _output_callbacks s.
Proof.
  induction l as [|op l IH]; intros s Hrem; [done|].
  apply Forall_cons in Hrem as [Hop Hl]. destruct op as [c|c]; [done|].
  destruct (IH (remove_output_callback c s) Hl) as [H1 H2].
  change (run_ops (Remove c :: l) s) with (run_ops l (remove_output_callback c s)).
  assert ((length (_output_callbacks (remove_output_callback c s))
           <= length (_output_callbacks s))%nat /\
          forall x, x ∈ _output_callbacks (remove_output_callback c s) ->
                    x ∈ _output_callbacks s) as [H3 H4].
  { unfold remove_output_callback. case_bool_decide; [|done].
    simpl. apply list_remove_shrinks. }
  split; [lia|]. intros x Hx. by apply H4, H2.
Qed.

Lemma notify_removes behave data :
  (forall c, Forall is_remove (ops (behave c data))) ->
  forall fuel i s lg,
    (length (_output_callbacks s) - i < fuel)%nat ->
    exists s' lg' called,
      notify fuel behave data i s lg = Some (s', lg') /\
      delivered lg' = delivered lg ++ calls called data /\
      (forall x, x ∈ called -> x ∈ _output_callbacks s) /\
      (length called <= length (_output_callbacks s) - i)%nat /\
      (forall x, x ∈ _output_callbacks s' -> x ∈ _output_callbacks s).
Proof.
  intros Hrem. induction fuel as [|fuel IH]; intros i s lg Hfuel; [lia|].
  cbn [notify]. destruct (_output_callbacks s !! i) as [c|] eqn:Hi.
  - apply lookup_lt_Some in Hi as Hlt.
    destruct (run_ops_removes (ops (behave c data)) s (Hrem c)) as [Hlen Hsub].
    destruct (IH (S i) (run_ops (ops (behave c data)) s)
                (record_call c data (raises (behave c data)) lg))
      as (s' & lg' & called & Hrun & Hd & Hin & Hcount & Hsub'); [lia|].
    exists s', lg', (c :: called). split; [done|]. split; [|split; [|split]].
    + rewrite Hd. simpl. by rewrite <- app_assoc.
    + intros x [->|Hx]%elem_of_cons; [by eapply list_elem_of_lookup_2|].
      by apply Hsub, Hin.
    + simpl. lia.
    + intros x Hx. by apply Hsub, Hsub'.
  - exists s, lg, []. split; [done|]. simpl. rewrite app_nil_r.
    split; [done|]. split; [by intros x Hx%elem_of_nil|]. split; [lia|done].
Qed.

Lemma notify_diverges behave data :
  (forall c, exists c', ops (behave c data) = [Add c']) ->
  forall fuel i s lg,
    (i < length (_output_callbacks s))%nat ->
    notify fuel behave data i s lg = None.
Proof.
  intros Hadd. induction fuel as [|fuel IH]; intros i s lg Hi; [done|].
  cbn [notify]. destruct (lookup_lt_is_Some_2 _ _ Hi) as [c ->].
  destruct (Hadd c) as [c' ->]. apply IH. simpl. rewrite length_app. simpl. lia.
Qed.

(** X17.  A pass in which callbacks do not subscribe anybody ends within
    as many calls as there are subscribers, calls only callbacks that were
    subscribed at its start, and leaves no new subscriber.  A pass over a
    non-empty list in which every call subscribes one more callback never
    ends. *)
Theorem pass_ends_unless_callbacks_subscribe :
  (forall behave data fuel s lg,
      (forall c, Forall is_remove (ops (behave c data))) ->
      (length (_output_callbacks s) < fuel)%nat ->
      exists s' lg' called,
        notify fuel behave data 0 s lg = Some (s', lg') /\
        delivered lg' = delivered lg ++ calls called data /\
        (forall x, x ∈ called -> x ∈ _output_callbacks s) /\
        (length called <= length (_output_callbacks s))%nat /\
        (forall x, x ∈ _output_callbacks s' -> x ∈ _output_callbacks s)) /\
  (forall behave data fuel s lg,
      (forall c, exists c', ops (behave c data) = [Add c']) ->
      _output_callbacks s <> [] ->
      notify fuel behave data 0 s lg = None).
Proof.
  split.
  - intros behave data fuel s lg Hrem Hfuel.
    destruct (notify_removes behave data Hrem fuel O s lg)
      as (s' & lg' & called & H1 & H2 & H3 & H4 & H5); [lia|].
    exists s', lg', called. repeat split; try done. lia.
  - intros behave data fuel s lg Hadd Hne. apply notify_diverges; [done|].
    destruct (_output_callbacks s); [done|simpl; lia].
Qed.

Lemma pass_ends_unless_callbacks_subscribe_witness :
  exists s' lg' called,
    notify 3 Fixtures.one_shot "x" 0 (Fixtures.session_with [1; 2]%nat [])
           empty_log = Some (s', lg') /\
    delivered lg' = calls called "x" /\ (length called <= 2)%nat.
Proof.
  destruct (proj1 pass_ends_unless_callbacks_subscribe Fixtures.one_shot "x"%string
              3%nat (Fixtures.session_with [1; 2]%nat []) empty_log)
    as (s' & lg' & called & Hrun & Hd & _ & Hlen & _).
  - intros c. unfold Fixtures.one_shot. simpl.
    case_bool_decide; repeat constructor.
  - simpl. lia.
  - exists s', lg', called. split; [exact Hrun|]. split; [exact Hd|exact Hlen].
Defined.

End RelayMore.

(** ** The connection registry of the push channel *)

Module WebSocketFacts.
Import WebSocket.
Local Set Warnings "-clear-no-such-hyp".

Lemma disconnect_lookup ws sid (m : connections) :
  disconnect ws sid m !! sid = without ws (m !! sid).
Proof.
  unfold disconnect, without. destruct (m !! sid) as [s|] eqn:Hs; simpl.
  - case_decide; [apply lookup_delete_eq|apply lookup_insert_eq].
  - by rewrite Hs.
Qed.

Lemma disconnect_lookup_ne ws sid sid' (m : connections) :
  sid' <> sid -> disconnect ws sid m !! sid' = m !! sid'.
Proof.
  intros Hne. unfold disconnect. destruct (m !! sid) as [s|]; [|done].
  case_decide; [by apply lookup_delete_ne|by apply lookup_insert_ne].
Qed.

Lemma connect_lookup ws sid (m : connections) :
  connect ws sid m !! sid = Some (default ∅ (m !! sid) ∪ {[ws]}).
Proof.
  unfold connect. destruct (m !! sid) as [s|]; rewrite lookup_insert_eq.
  - done.
  - simpl. f_equal. set_solver.
Qed.

Lemma connect_lookup_ne ws sid sid' (m : connections) :
  sid' <> sid -> connect ws sid m !! sid' = m !! sid'.
Proof.
  intros Hne. unfold connect.
  destruct (m !! sid) as [s|]; by apply lookup_insert_ne.
Qed.

Lemma pruned_connect ws sid m : pruned m -> pruned (connect ws sid m).
Proof.
  intros Hp sid' s Hs. destruct (decide (sid' = sid)) as [->|Hne].
  - rewrite connect_lookup in Hs. injection Hs as <-. set_solver.
  - rewrite connect_lookup_ne in Hs by done. by eapply Hp.
Qed.

Lemma pruned_disconnect ws sid m : pruned m -> pruned (disconnect ws sid m).
Proof.
  intros Hp sid' s Hs. destruct (decide (sid' = sid)) as [->|Hne].
  - rewrite disconnect_lookup in Hs. unfold without in Hs.
    destruct (m !! sid) as [s0|]; [|done]. simpl in Hs.
    case_decide; [done|]. by injection Hs as <-.
  - rewrite disconnect_lookup_ne in Hs by done. by eapply Hp.
Qed.

Lemma disconnect_all_lookup sid (l : list conn) : forall m : connections,
  foldl (fun m ws => disconnect ws sid m) m l !! sid
  = foldl (fun o ws => without ws o) (m !! sid) l.
Proof.
  induction l as [|ws l IH]; intros m; [done|].
  simpl. by rewrite IH, disconnect_lookup.
Qed.

Lemma disconnect_all_lookup_ne sid sid' (l : list conn) :
  sid' <> sid ->
  forall m : connections,
    foldl (fun m ws => disconnect ws sid m) m l !! sid' = m !! sid'.
Proof.
  intros Hne. induction l as [|ws l IH]; intros m; [done|].
  simpl. by rewrite IH, disconnect_lookup_ne.
Qed.

Lemma pruned_disconnect_all sid (l : list conn) : forall m,
  pruned m -> pruned (foldl (fun m ws => disconnect ws sid m) m l).
Proof.
  induction l as [|ws l IH]; intros m Hp; [done|].
  simpl. by apply IH, pruned_disconnect.
Qed.

Lemma without_all_None (l : list conn) :
  foldl (fun o ws => without ws o) None l = None.
Proof. induction l as [|ws l IH]; [done|]. exact IH. Qed.

Lemma without_all (l : list conn) : forall s : gset conn,
  s ≠ ∅ ->
  foldl (fun o ws => without ws o) (Some s) l
  = if decide (s ∖ list_to_set l = ∅) then None
    else Some (s ∖ list_to_set l).
Proof.
  induction l as [|ws l IH]; intros s Hs.
  - simpl. assert (s ∖ ∅ = s) as -> by set_solver. by rewrite decide_False.
  - simpl. case_decide as Hws.
    + rewrite without_all_None. rewrite decide_True; [done|]. set_solver.
    + rewrite IH by done.
      assert ((s ∖ {[ws]}) ∖ list_to_set l = s ∖ ({[ws]} ∪ list_to_set l))
        as -> by set_solver.
      done.
Qed.

Lemma failing_removed (send_ok : transport) message (s : gset conn) :
  s ∖ list_to_set
        (List.filter (fun ws => negb (send_ok ws message)) (elements s))
  = reachable_conns send_ok message s.
Proof.
  apply set_eq. intros ws. unfold reachable_conns.
  rewrite elem_of_difference, elem_of_filter, elem_of_list_to_set.
  rewrite list_elem_of_In, filter_In, <- list_elem_of_In, elem_of_elements.
  destruct (send_ok ws message); simpl; naive_solver.
Qed.

Lemma send_to_session_lookup send_ok sid message m :
  pruned m ->
  (send_to_session send_ok sid message m).1 !! sid
  = survivors send_ok message (m !! sid).
Proof.
  intros Hp. unfold send_to_session, survivors.
  destruct (m !! sid) as [s|] eqn:Hs; simpl; [|done].
  rewrite disconnect_all_lookup, Hs, without_all by (by eapply Hp).
  by rewrite failing_removed.
Qed.

Lemma send_to_session_lookup_ne send_ok sid sid' message m :
  sid' <> sid ->
  (send_to_session send_ok sid message m).1 !! sid' = m !! sid'.
Proof.
  intros Hne. unfold send_to_session.
  destruct (m !! sid) as [s|]; simpl; [|done].
  by apply disconnect_all_lookup_ne.
Qed.

Lemma pruned_send_to_session send_ok sid message m :
  pruned m -> pruned (send_to_session send_ok sid message m).1.
Proof.
  intros Hp. unfold send_to_session.
  destruct (m !! sid) as [s|]; simpl; [|done].
  by apply pruned_disconnect_all.
Qed.

Lemma served_spec send_ok sid message m ws :
  ws ∈ (send_to_session send_ok sid message m).2 <->
  exists s, m !! sid = Some s /\ ws ∈ s /\ send_ok ws message = true.
Proof.
  unfold send_to_session. destruct (m !! sid) as [s|]; simpl.
  - rewrite list_elem_of_In, filter_In, <- list_elem_of_In, elem_of_elements.
    naive_solver.
  - split; [by intros ?%elem_of_nil|]. by intros (s & ? & _).
Qed.

Lemma broadcast_fold send_ok message (l : list string) :
  forall (m : connections) (acc : list (string * conn)),
    pruned m -> NoDup l ->
    let res :=
      foldl (fun acc sid =>
               let '(m', served) := send_to_session send_ok sid message acc.1 in
               (m', acc.2 ++ ((fun ws => (sid, ws)) <$> served)))
            (m, acc) l in
    pruned res.1 /\
    (forall sid,
        res.1 !! sid = if bool_decide (sid ∈ l)
                       then survivors send_ok message (m !! sid)
                       else m !! sid) /\
    (forall p,
        p ∈ res.2 <->
        p ∈ acc \/
        (p.1 ∈ l /\ exists s, m !! p.1 = Some s /\ p.2 ∈ s /\
                               send_ok p.2 message = true)).
Proof.
  induction l as [|sid0 l IH]; intros m acc Hp Hnd.
  - simpl. split; [done|]. split; [done|].
    intros p. split; [by left|]. intros [?|[Hin _]]; [done|].
    by apply elem_of_nil in Hin.
  - apply NoDup_cons in Hnd as [Hnot Hnd]. cbn [foldl]. simpl.
    destruct (send_to_session send_ok sid0 message m) as [m1 served] eqn:Hsend.
    assert (m1 = (send_to_session send_ok sid0 message m).1) as Hm1
      by (by rewrite Hsend).
    assert (served = (send_to_session send_ok sid0 message m).2) as Hserved
      by (by rewrite Hsend).
    destruct (IH m1 (acc ++ ((fun ws => (sid0, ws)) <$> served)))
      as (Hp' & Hlook & Hsrv); [|done|].
    { rewrite Hm1. by apply pruned_send_to_session. }
    split; [done|]. split.
    + intros sid. rewrite Hlook. destruct (decide (sid = sid0)) as [->|Hne].
      * rewrite (bool_decide_false (sid0 ∈ l)) by done.
        rewrite (bool_decide_true (sid0 ∈ sid0 :: l)) by apply list_elem_of_here.
        rewrite Hm1. by apply send_to_session_lookup.
      * rewrite (bool_decide_ext (sid ∈ sid0 :: l) (sid ∈ l))
          by (rewrite elem_of_cons; tauto).
        rewrite Hm1, send_to_session_lookup_ne by done. done.
    + intros [sid ws]. rewrite Hsrv, elem_of_app, list_elem_of_fmap. simpl.
      split.
      * intros [[Hacc|(ws' & [= -> ->] & Hws)]|(Hin & s & Hs & Hws & Hok)].
        -- by left.
        -- right. rewrite Hserved in Hws. apply served_spec in Hws.
           split; [apply list_elem_of_here|done].
        -- right. split; [by apply list_elem_of_further|].
           assert (sid <> sid0) as Hne by (by intros ->).
           rewrite Hm1, send_to_session_lookup_ne in Hs by done. by eauto.
      * intros [Hacc|(Hin & s & Hs & Hws & Hok)]; [by left; left|].
        apply elem_of_cons in Hin as [->|Hin].
        -- left. right. exists ws. split; [done|].
           rewrite Hserved. apply served_spec. by eauto.
        -- right. split; [done|].
           assert (sid <> sid0) as Hne by (by intros ->).
           exists s. rewrite Hm1, send_to_session_lookup_ne by done. done.
Qed.

(** X18.  No session id is ever kept with an empty set of connections:
    the registry starts that way, and [connect], [disconnect],
    [send_to_session] and [broadcast] keep it that way. *)
Theorem connections_stay_pruned :
  pruned ∅ /\
  forall send_ok ws sid message m,
    pruned m ->
    pruned (connect ws sid m) /\ pruned (disconnect ws sid m) /\
    pruned (send_to_session send_ok sid message m).1 /\
    pruned (broadcast send_ok message m).1.
Proof.
  split; [intros sid s Hs; by rewrite lookup_empty in Hs|].
  intros send_ok ws sid message m Hp.
  split; [by apply pruned_connect|]. split; [by apply pruned_disconnect|].
  split; [by apply pruned_send_to_session|].
  unfold broadcast.
  by destruct (broadcast_fold send_ok message ((map_to_list m).*1) m [] Hp
                 (NoDup_fst_map_to_list m)) as [H _].
Qed.

Lemma connections_stay_pruned_witness :
  pruned (send_to_session Samples.one_is_gone "b" "hello" Samples.two_rooms).1.
Proof.
  destruct connections_stay_pruned as [Hempty Hkeep].
  apply (Hkeep Samples.one_is_gone O "b"%string "hello"%string).
  unfold Samples.two_rooms.
  apply (Hkeep Samples.one_is_gone 1%nat "b"%string "hello"%string).
  apply (Hkeep Samples.one_is_gone 2%nat "a"%string "hello"%string).
  apply (Hkeep Samples.one_is_gone 1%nat "a"%string "hello"%string).
  exact Hempty.
Defined.

(** X19.  [send_to_session] tries every connection of the session once;
    the connections whose send failed are taken out of the session's set
    in the same call, the session's entry going with the last of them;
    the connections served are those whose send returned; other sessions
    are not touched. *)
Theorem send_to_session_prunes_failures :
  forall send_ok sid message m,
    pruned m ->
    (send_to_session send_ok sid message m).1 !! sid
    = survivors send_ok message (m !! sid) /\
    (forall sid', sid' <> sid ->
        (send_to_session send_ok sid message m).1 !! sid' = m !! sid') /\
    NoDup (send_to_session send_ok sid message m).2 /\
    (forall ws,
        ws ∈ (send_to_session send_ok sid message m).2 <->
        exists s, m !! sid = Some s /\ ws ∈ s /\ send_ok ws message = true).
Proof.
  intros send_ok sid message m Hp.
  split; [by apply send_to_session_lookup|].
  split; [intros; by apply send_to_session_lookup_ne|].
  split; [|intros; apply served_spec].
  unfold send_to_session. destruct (m !! sid) as [s|]; simpl.
  - apply NoDup_ListNoDup, List.NoDup_filter, NoDup_ListNoDup, NoDup_elements.
  - constructor.
Qed.

Lemma send_to_session_prunes_failures_witness :
  (send_to_session Samples.one_is_gone "a" "hello" Samples.two_rooms).1
    !! "a"%string = Some {[2%nat]} /\
  (send_to_session Samples.one_is_gone "b" "hello" Samples.two_rooms).1
    !! "b"%string = None.
Proof.
  assert (pruned Samples.two_rooms) as Hp.
  { unfold Samples.two_rooms. repeat apply pruned_connect.
    apply connections_stay_pruned. }
  split.
  - destruct (send_to_session_prunes_failures Samples.one_is_gone "a"%string
                "hello"%string Samples.two_rooms Hp) as [-> _].
    vm_compute. reflexivity.
  - destruct (send_to_session_prunes_failures Samples.one_is_gone "b"%string
                "hello"%string Samples.two_rooms Hp) as [-> _].
    vm_compute. reflexivity.
Defined.

(** X20.  Connecting a connection that was not there and disconnecting
    it again gives back the registry as it was; disconnecting a connection
    that is not registered changes nothing; disconnecting twice is
    disconnecting once. *)
Theorem connect_then_disconnect :
  forall ws sid (m : connections),
    pruned m ->
    (ws ∉ default ∅ (m !! sid) ->
     disconnect ws sid (connect ws sid m) = m /\ disconnect ws sid m = m) /\
    disconnect ws sid (disconnect ws sid m) = disconnect ws sid m.
Proof.
  intros ws sid m Hp. split.
  - intros Hnot. split; apply map_eq; intros sid';
      (destruct (decide (sid' = sid)) as [->|Hne];
       [|by rewrite ?disconnect_lookup_ne, ?connect_lookup_ne by done]).
    + rewrite disconnect_lookup, connect_lookup. unfold without. simpl.
      assert ((default ∅ (m !! sid) ∪ {[ws]}) ∖ {[ws]} = default ∅ (m !! sid))
        as -> by set_solver.
      destruct (m !! sid) as [s|] eqn:Hs; simpl.
      * rewrite decide_False; [done|]. by eapply Hp.
      * by rewrite decide_True.
    + rewrite disconnect_lookup. unfold without.
      destruct (m !! sid) as [s|] eqn:Hs; simpl; [|done]. simpl in Hnot.
      assert (s ∖ {[ws]} = s) as -> by set_solver.
      rewrite decide_False; [done|]. by eapply Hp.
  - apply map_eq. intros sid'. destruct (decide (sid' = sid)) as [->|Hne];
      [|by rewrite !disconnect_lookup_ne by done].
    rewrite !disconnect_lookup. unfold without.
    destruct (m !! sid) as [s|]; simpl; [|done].
    case_decide as Hs; simpl; [done|].
    assert ((s ∖ {[ws]}) ∖ {[ws]} = s ∖ {[ws]}) as -> by set_solver.
    by rewrite decide_False.
Qed.

Lemma connect_then_disconnect_witness :
  disconnect 5%nat "a" (connect 5%nat "a" Samples.two_rooms)
  = Samples.two_rooms.
Proof.
  assert (pruned Samples.two_rooms) as Hp.
  { unfold Samples.two_rooms. repeat apply pruned_connect.
    apply connections_stay_pruned. }
  destruct (connect_then_disconnect 5%nat "a"%string Samples.two_rooms Hp)
    as [Hround _].
  apply Hround. vm_compute. intros Hin. discriminate Hin.
Defined.

(** X21.  [broadcast] does for every session what [send_to_session] does
    for one: afterwards each session keeps exactly the connections whose
    send returned (and no entry if there is none), and a connection was
    served under a session id exactly when it was registered there and its
    send returned. *)
Theorem broadcast_prunes_everywhere :
  forall send_ok message (m : connections),
    pruned m ->
    (forall sid,
        (broadcast send_ok message m).1 !! sid
        = survivors send_ok message (m !! sid)) /\
    (forall sid ws,
        (sid, ws) ∈ (broadcast send_ok message m).2 <->
        exists s, m !! sid = Some s /\ ws ∈ s /\ send_ok ws message = true).
Proof.
  intros send_ok message m Hp. unfold broadcast.
  destruct (broadcast_fold send_ok message ((map_to_list m).*1) m [] Hp
              (NoDup_fst_map_to_list m)) as (_ & Hlook & Hsrv).
  split.
  - intros sid. rewrite Hlook. case_bool_decide as Hin; [done|].
    destruct (m !! sid) as [s|] eqn:Hs; [|done]. exfalso. apply Hin.
    apply list_elem_of_fmap. exists (sid, s). split; [done|].
    by apply elem_of_map_to_list.
  - intros sid ws. rewrite Hsrv. simpl. split.
    + intros [Hnil|[_ H]]; [by apply elem_of_nil in Hnil|done].
    + intros (s & Hs & Hws & Hok). right. split; [|by eauto].
      apply list_elem_of_fmap. exists (sid, s). split; [done|].
      by apply elem_of_map_to_list.
Qed.

Lemma broadcast_prunes_everywhere_witness :
  (broadcast Samples.one_is_gone "hello" Samples.two_rooms).1 !! "b"%string
  = None.
Proof.
  assert (pruned Samples.two_rooms) as Hp.
  { unfold Samples.two_rooms. repeat apply pruned_connect.
    apply connections_stay_pruned. }
  destruct (broadcast_prunes_everywhere Samples.one_is_gone "hello"%string
              Samples.two_rooms Hp) as [Hlook _].
  rewrite Hlook. vm_compute. reflexivity.
Defined.

End WebSocketFacts.

(** ** The routes *)

Module RoutesFacts.
Import Sessions Routes.







(** X24.  The creation route answers 503 when the manager is full, and
    503 or 500 for any other failure of the creation; an error answer
    leaves the state as it was.  A success carries the id that was drawn,
    and that id is then registered. *)
Theorem create_route_answers :
  forall env request st,
    (max_sessions (manager st) <= len_sessions st ->
     Routes.create_session env request st
     = (HTTPException 503 (Str (RuntimeError (max_sessions (manager st)))),
        st)) /\
    (forall status d st',
        Routes.create_session env request st = (HTTPException status d, st') ->
        st' = st /\ (status = 503 \/ status = 500)) /\
    (forall body st',
        Routes.create_session env request st = (OK body, st') ->
        c_session_id body = uuid4 env /\
        c_container_id body = r_container_id request /\
        is_Some (sessions (manager st') !! uuid4 env)).
Proof.
  intros env request st. unfold Routes.create_session.
  unfold Sessions.create_session, create_session_begin, create_session_resume.
  split; [|split].
  - intros Hfull. by rewrite bool_decide_true.
  - intros status d st'. case_bool_decide.
    { intros [= <- _ <-]. by auto. }
    destruct (Pty.containers_get _ _) as [e|].
    { destruct e; intros [= <- _ <-]; by auto. }
    simpl. destruct (Pty.connect _ _ _) as [pty|e]; [done|].
    destruct e; intros [= <- _ <-]; by auto.
  - intros body st'. case_bool_decide; [done|].
    destruct (Pty.containers_get _ _) as [e|]; [by destruct e|].
    simpl. destruct (Pty.connect _ _ _) as [pty|e]; [|by destruct e].
    intros [= <- <-]. simpl. unfold set_sessions. simpl.
    rewrite lookup_insert_eq. by eauto.
Qed.

Lemma create_route_answers_witness :
  Routes.create_session (Fixtures.env_at Fixtures.docker_up "id-2" 7)
    {| r_container_id := "box"; r_command := None; r_use_automation := false |}
    Fixtures.one_session
  = (HTTPException 503 (Str (RuntimeError 1)), Fixtures.one_session).
Proof.
  destruct (create_route_answers (Fixtures.env_at Fixtures.docker_up "id-2" 7)
              {| r_container_id := "box"; r_command := None;
                 r_use_automation := false |} Fixtures.one_session)
    as [Hfull _].
  apply Hfull. vm_compute. discriminate.
Defined.

(** X25.  Once the close route has answered with success for an id, the
    get, close and input routes all answer 404 for it, and none of them
    changes the state. *)
Theorem closed_ids_answer_404 :
  forall sid st body st',
    Routes.close_session sid st = (OK body, st') ->
    Routes.get_session sid st'
    = HTTPException 404 (Message "Session not found") /\
    Routes.close_session sid st'
    = (HTTPException 404 (Message "Session not found"), st') /\
    (forall utcnow data,
        Routes.send_input utcnow sid data st'
        = (HTTPException 404 (Message "Session not found"), st')).
Proof.
  intros sid st body st'. unfold Routes.close_session.
  destruct (Sessions.close_session sid st) as [ok st1] eqn:Hclose.
  destruct ok; [|done]. intros [= _ <-].
  assert (sessions (manager st1) !! sid = None) as Hgone.
  { unfold Sessions.close_session in Hclose.
    destruct (sessions (manager st) !! sid); [|done].
    injection Hclose as <-. apply lookup_delete_eq. }
  unfold Routes.get_session, Routes.send_input, Sessions.get_session,
    Sessions.close_session.
  rewrite Hgone. done.
Qed.

Lemma closed_ids_answer_404_witness :
  exists st',
    Routes.close_session "auto" Samples.with_automation
    = (OK (true, "auto"%string), st') /\
    Routes.close_session "auto" st'
    = (HTTPException 404 (Message "Session not found"), st').
Proof.
  destruct (Routes.close_session "auto" Samples.with_automation)
    as [resp st'] eqn:Hclose.
  assert (resp = OK (true, "auto"%string)) as ->.
  { vm_compute in Hclose. by injection Hclose as <- _. }
  exists st'. split; [reflexivity|].
  by destruct (closed_ids_answer_404 _ _ _ _ Hclose) as (_ & H404 & _).
Defined.

End RoutesFacts.

(** ** The websocket endpoint *)

Module EndpointFacts.
Import Sessions Endpoint.
Local Set Warnings "-clear-no-such-hyp".






End EndpointFacts.
